(** * bdebuild.waf.bdeunittest: running BDE-style unit tests under waf

    A shallow embedding of [lib/python/bdebuild/waf/bdeunittest.py] and the
    properties of its test-execution and aggregation engine.

    Conventions of the embedding.
    - Python [int] is [Z]; [len] is [Z.of_nat (length _)].
    - A duration ([time.time()] difference, a finite Python [float]) is the
      rational it denotes, in [Q].  An arithmetic operation of the
      interpreter on floats is the exact operation on rationals followed by
      [fl64], rounding to the nearest binary64 value, ties to even;
      [fmod] and [floor] are exact.  Signed zeros are not told apart (they
      print alike), and no operation here overflows on a finite duration.
    - [str] is [string]; a Python [dict] keyed by strings is [gmap string _];
      a Python [set] of strings is [gset string].
    - Console output ([Logs.pprint], [Logs.info]) and the coverage log file
      are returned as lists, in the order they are written.
    - Services of the interpreter, of waflib and of the operating system that
      the module calls but does not define are fields of the class [Host]. *)

From Stdlib Require Import ZArith QArith Qround Qpower Qabs Lqa String Ascii List Lia Permutation.
From stdpp Require Import gmap strings list fin_maps pretty.

Local Open Scope Z_scope.

(* ===================================================================== *)
(** * Part I: the program *)
(* ===================================================================== *)

(** ** Python string formatting *)

Module PyFormat.

(** ['%d' % z] and ['%s' % z] for an [int] [z]. *)
Definition fmt_d (z : Z) : string := pretty z.

(** ['%02d' % z] for an [int] [z]: zero padding up to width two (a negative
    number already fills the width with its sign). *)
Definition fmt_02d (z : Z) : string :=
  let s := pretty z in
  if (String.length s <? 2)%nat then "0" +:+ s else s.

(** [int(x)] for a [float] [x], which is what ['%d' % x] prints:
    truncation toward zero. *)
Definition int_of_float (x : Q) : Z := Z.quot (Qnum x) (Z.pos (Qden x)).

(** Rounding of a rational to the nearest integer, ties to the even one. *)
Definition rnd (y : Q) : Z :=
  let f := Qfloor y in
  match (y - inject_Z f ?= 1 # 2)%Q with
  | Lt => f
  | Gt => f + 1
  | Eq => if Z.even f then f else f + 1
  end.

(** The binary exponent of a positive rational [x]: the [k] with
    [2^k <= x < 2^(k+1)]. *)
Definition ilog2 (x : Q) : Z :=
  let k := Z.log2 (Qnum x) - Z.log2 (Z.pos (Qden x)) in
  if Qle_bool (2 ^ k) x then k else k - 1.

(** The exponent of the last of the 53 significant bits of [x] in
    binary64, not below -1074, the exponent of the subnormal numbers. *)
Definition ulp_exp (x : Q) : Z := Z.max (ilog2 (Qabs x) - 52) (-1074).

(** Rounding to binary64, to nearest, ties to even: the rounding of every
    arithmetic operation on a Python [float]. *)
Definition fl64 (x : Q) : Q :=
  if Qeq_bool x 0 then 0%Q
  else
    let e := ulp_exp x in
    (inject_Z (rnd (x / 2 ^ e)) * 2 ^ e)%Q.

(** C's [fmod(x, 60)]: [x] minus 60 times the quotient truncated toward
    zero; the result is exact. *)
Definition fmod60 (x : Q) : Q :=
  (x - 60 * inject_Z (int_of_float (x / 60)))%Q.

(** [divmod(vx, 60)] on a [float], as the interpreter computes it
    ([float_divmod] with [wx = 60]): the remainder of [fmod], moved to the
    sign of the divisor, and the quotient [(vx - mod) / wx] brought to an
    integer. *)
Definition divmod60 (vx : Q) : Q * Q :=
  let md := fmod60 vx in
  let div := fl64 (fl64 (vx - md) / 60) in
  let '(md, div) :=
    if negb (Qeq_bool md 0) then
      if negb (Qle_bool 0 md) then (fl64 (md + 60), fl64 (div - 1))
      else (md, div)
    else (0%Q, div) in
  let floordiv :=
    if negb (Qeq_bool div 0) then
      let f := inject_Z (Qfloor div) in
      if negb (Qle_bool (fl64 (div - f)) (1 # 2)) then fl64 (f + 1) else f
    else 0%Q in
  (floordiv, md).

(** ['\n'] *)
Definition nl : string := String (ascii_of_nat 10) EmptyString.

(** ['=' * 79] *)
Definition rule79 : string := Eval vm_compute in
  fold_right (fun _ s => String "="%char s) EmptyString (seq 0 79).

(** Truth value of a [str]: non-empty. *)
Definition truthy_str (s : string) : bool :=
  match s with EmptyString => false | _ => true end.

End PyFormat.

Import PyFormat.

(** ** The parts of waflib and of the command line the module reads *)

(** [waflib.Node.Node]: the module only calls [abspath()] on a node and on
    its [parent]. *)
Record node := Node {
  abspath : string;
  parent_abspath : string
}.

(** [Options.options] / [ctx.options], as declared by [options(ctx)]. *)
Record options := Options {
  test : string;               (* --test, one of none/build/run *)
  test_v : Z;                  (* --test-v *)
  test_j : Z;                  (* --test-j *)
  show_test_out : bool;        (* --show-test-out *)
  test_timeout : Z;            (* --test-timeout *)
  test_junit : bool;           (* --test-junit *)
  coverage_out : option string;(* --coverage-out, default None *)
  valgrind : bool;             (* --valgrind *)
  valgrind_tool : string       (* --valgrind-tool *)
}.

(** The 5-tuple [(testdriver_node, returncode, stdout, duration, source)]
    stored by [utest.run]. *)
Record tup := Tup {
  t_node : node;
  t_code : Z;
  t_out : string;
  t_time : Q;
  t_src : node
}.

(** A link task: [outputs[0]] always exists for a task created by
    [apply_link]. *)
Record link_task_t := LinkTask {
  output0 : node;
  outputs_rest : list node
}.

(** A task generator; [link_task] is [None] when the attribute is absent. *)
Record task_gen := TaskGen {
  link_task : option link_task_t
}.

(** ** class utest *)

Module Utest.

Section RunnableStatus.
  (** [Task.SKIP_ME] and [Task.RUN_ME] are constants of waflib. *)
Variables SKIP_ME RUN_ME : Z.

  (** [utest.runnable_status]; [super_status] is the value of
      [super(utest, self).runnable_status()]. *)
Definition runnable_status (opts : options) (super_status : Z) : Z :=
    let run_test := String.eqb (test opts) "run" in
    if negb run_test then SKIP_ME
    else
      let ret := super_status in
      if Z.eqb ret SKIP_ME then
        if run_test then RUN_ME else ret
      else ret.
End RunnableStatus.

(** [utest.get_testcmd] *)
Definition get_testcmd (sys_executable test_runner_path : string)
    (opts : options) (testdriver_node : node) : list string :=
  let testcmd :=
    [ sys_executable; test_runner_path;
      "--verbosity=" +:+ fmt_d (test_v opts);
      "--timeout=" +:+ fmt_d (test_timeout opts);
      "-j" +:+ fmt_d (test_j opts);
      abspath testdriver_node ] in
  let testcmd :=
    if test_junit opts
    then testcmd ++ ["--junit=" +:+ abspath testdriver_node +:+ "-junit.xml"]
    else testcmd in
  let testcmd :=
    if valgrind opts
    then testcmd ++ ["--valgrind";
                     "--valgrind-tool=" +:+ valgrind_tool opts]
    else testcmd in
  testcmd.

End Utest.

(** ** Services the module takes from its host *)

(** The operating system as [utest.run] sees it. *)
Record os_t := OS {
  environ : gmap string string;        (* os.environ *)
  pathsep : string;                    (* os.pathsep *)
  is_win32 : bool;                     (* Utils.is_win32 *)
  unversioned_sys_platform : string    (* Utils.unversioned_sys_platform() *)
}.

(** Child processes, path handling and [str()] of lists: what the module
    calls in the standard library and in waflib.  [world] is whatever the
    child processes read and change. *)
Class Host := {
  world : Type;
  (** [Popen(testcmd, cwd, env, stderr=STDOUT, stdout=PIPE)], then
      [communicate()], timed with [time.time()] on both sides: the return
      code, the decoded output and the elapsed time. *)
  popen_communicate :
    list string -> string -> gmap string string -> world -> (Z * string * Q) * world;
  (** [Popen(cmd, cwd, stdout=logfile, stderr=logfile).wait()]: the lines the
      child writes to the log file and its return code. *)
  popen_wait : list string -> string -> world -> (list string * Z) * world;
  (** [os.path.join] *)
  os_path_join : string -> string -> string;
  (** ['%s' % cmd] for a list of strings *)
  str_of_cmd : list string -> string;
  (** ['%s' % cmd_descs] for a list of (list of strings, string) pairs *)
  str_of_cmd_descs : list (list string * string) -> string;
  (** [Logs.colors.YELLOW], [Logs.colors.NORMAL] *)
  colors_YELLOW : string;
  colors_NORMAL : string
}.

(** What the module writes on the console. *)
Inductive console_record :=
| Pprint (color msg : string)   (* Logs.pprint(color, msg) *)
| Info (msg : string).          (* Logs.info(msg) *)

(** The build context: the attributes of [bld] / [ctx] the module reads and
    writes.  [all_test_paths] and [utest_results] are [None] until the
    attribute is first assigned. *)
Record build_context := Bld {
  groups : list (list task_gen);
  all_test_paths : option (gmap string string);
  utest_results : option (list tup);
  ctx_options : options;
  env_with_coverage : bool;          (* ctx.env['with_coverage'] *)
  env_LCOV : list string;            (* ctx.env['LCOV'] *)
  env_GENHTML0 : string;             (* ctx.env['GENHTML'][0] *)
  bldnode_abspath : string;          (* ctx.bldnode.abspath() *)
  path_abspath : string;             (* ctx.path.abspath() *)
  log_timer : string                 (* str(ctx.log_timer) *)
}.

Definition set_all_test_paths (fu : gmap string string) (bld : build_context) :=
  Bld (groups bld) (Some fu) (utest_results bld) (ctx_options bld)
      (env_with_coverage bld) (env_LCOV bld) (env_GENHTML0 bld)
      (bldnode_abspath bld) (path_abspath bld) (log_timer bld).

Definition set_utest_results (l : list tup) (bld : build_context) :=
  Bld (groups bld) (all_test_paths bld) (Some l) (ctx_options bld)
      (env_with_coverage bld) (env_LCOV bld) (env_GENHTML0 bld)
      (bldnode_abspath bld) (path_abspath bld) (log_timer bld).

(** [getattr(ctx, 'utest_results', [])] *)
Definition getattr_utest_results (ctx : build_context) : list tup :=
  default [] (utest_results ctx).

(** ** utest.run: the environment of the test process *)

Module Env.

(** The body of the two nested [for] loops: a task generator with a link
    task contributes the directory of its first output unless the list has
    it already. *)
Definition visit (lst : list string) (tg : task_gen) : list string :=
  match link_task tg with
  | Some lt =>
      let s := parent_abspath (output0 lt) in
      if bool_decide (s ∈ lst) then lst else lst ++ [s]
  | None => lst
  end.

(** [for g in bld.groups: for tg in g: ...] starting from [lst = []]. *)
Definition link_dirs (gs : list (list task_gen)) : list string :=
  foldl (fun lst g => foldl visit lst g) [] gs.

(** [add_path(dct, path, var)] *)
Definition add_path (os : os_t) (dct : gmap string string)
    (path : list string) (var : string) : gmap string string :=
  <[var := String.concat (pathsep os)
             (path ++ [default EmptyString (environ os !! var)])]> dct.

(** The [except AttributeError] branch: computes [fu]. *)
Definition compute_paths (os : os_t) (bld : build_context) : gmap string string :=
  let fu := environ os in
  let lst := link_dirs (groups bld) in
  if is_win32 os then add_path os fu lst "PATH"
  else if String.eqb (unversioned_sys_platform os) "darwin" then
    let fu := add_path os fu lst "DYLD_LIBRARY_PATH" in
    add_path os fu lst "LD_LIBRARY_PATH"
  else add_path os fu lst "LD_LIBRARY_PATH".

(** The [try: fu = getattr(bld, 'all_test_paths') except AttributeError]
    statement of [run]: returns [fu] and the build context, on which the
    attribute is now set. *)
Definition resolve (os : os_t) (bld : build_context)
    : gmap string string * build_context :=
  match all_test_paths bld with
  | Some fu => (fu, bld)
  | None =>
      let fu := compute_paths os bld in
      (fu, set_all_test_paths fu bld)
  end.

(** The directory of the first link output of every task generator that
    has a link task, in the order the loops meet them. *)
Definition all_link_dirs (gs : list (list task_gen)) : list string :=
  omap (fun tg => (fun lt => parent_abspath (output0 lt)) <$> link_task tg)
       (concat gs).

(** Removal of duplicates that keeps the first occurrence of each entry. *)
Fixpoint dedup_first (l : list string) : list string :=
  match l with
  | [] => []
  | x :: l' => x :: filter (λ y, y ≠ x) (dedup_first l')
  end.

(** The variables the search path is prepended to. *)
Definition search_path_vars (os : os_t) : list string :=
  if is_win32 os then ["PATH"]
  else if String.eqb (unversioned_sys_platform os) "darwin"
       then ["DYLD_LIBRARY_PATH"; "LD_LIBRARY_PATH"]
       else ["LD_LIBRARY_PATH"].

End Env.

(** ** utest.run: recording the result *)

Module Aggregator.

(** The statement executed under [testlock], as one step:
    [try: bld.utest_results.append(tup)
     except AttributeError: bld.utest_results = [tup]]. *)
Definition append_result (x : tup) (bld : build_context) : build_context :=
  match utest_results bld with
  | Some l => set_utest_results (l ++ [x]) bld
  | None => set_utest_results [x] bld
  end.

(** *** Workers

    A worker of the build runs its tasks one after the other; [queue] holds
    the result tuples of the [run] calls it still has to record, the head
    being the call in progress, and [at_pc] is the statement that call
    executes next. *)
Inductive pc :=
| AtAcquire   (* testlock.acquire() *)
| AtAppend    (* bld.utest_results.append(tup) *)
| AtAssign    (* except AttributeError: bld.utest_results = [tup] *)
| AtRelease.  (* finally: testlock.release() *)

Record worker := Worker {
  queue : list tup;
  at_pc : pc
}.

Record state := State {
  locked : bool;                  (* testlock *)
  results : option (list tup);    (* bld.utest_results *)
  workers : list worker
}.

(** One statement of worker [w]; [None] when the worker cannot move: it
    has nothing left to do, or it waits for the lock. *)
Definition step_worker (lk : bool) (res : option (list tup)) (w : worker)
    : option (bool * option (list tup) * worker) :=
  match queue w with
  | [] => None
  | x :: rest =>
      match at_pc w with
      | AtAcquire =>
          if lk then None else Some (true, res, Worker (x :: rest) AtAppend)
      | AtAppend =>
          match res with
          | Some l => Some (lk, Some (l ++ [x]), Worker (x :: rest) AtRelease)
          | None => Some (lk, res, Worker (x :: rest) AtAssign)
          end
      | AtAssign => Some (lk, Some [x], Worker (x :: rest) AtRelease)
      | AtRelease => Some (false, res, Worker rest AtAcquire)
      end
  end.

(** The scheduler lets worker [i] execute one statement.  A worker that
    cannot move leaves the state as it is. *)
Definition step (i : nat) (s : state) : state :=
  match workers s !! i with
  | Some w =>
      match step_worker (locked s) (results s) w with
      | Some (lk, res, w') => State lk res (<[i := w']> (workers s))
      | None => s
      end
  | None => s
  end.

(** An interleaving is the list of the scheduler's choices. *)
Definition run_schedule (sched : list nat) (s : state) : state :=
  foldl (fun s i => step i s) s sched.

(** [W] workers about to record the results in [qs], nothing recorded
    yet. *)
Definition init (qs : list (list tup)) : state :=
  State false None (map (fun q => Worker q AtAcquire) qs).

Definition finished (s : state) : Prop :=
  Forall (fun w => queue w = []) (workers s).

(** [len(bld.utest_results)], 0 while the attribute is absent. *)
Definition size (s : state) : nat := length (default [] (results s)).

(** The tuples a worker has still to append: the call at [AtRelease] has
    appended its own. *)
Definition pending_of (w : worker) : list tup :=
  match at_pc w with
  | AtRelease => tail (queue w)
  | _ => queue w
  end.

(** The worker is between [acquire] and [release]. *)
Definition in_cs (w : worker) : bool :=
  match at_pc w with
  | AtAcquire => false
  | _ => true
  end.

Definition cs_count (ws : list worker) : nat :=
  length (List.filter in_cs ws).

(** The statements a worker has still to execute, at most. *)
Definition remaining (w : worker) : nat :=
  4 * length (queue w)
  - match at_pc w with
    | AtAcquire => 0
    | AtAppend => 1
    | AtAssign => 2
    | AtRelease => 3
    end.

Definition total_remaining (s : state) : nat :=
  list_sum (map remaining (workers s)).

(** What holds in every state the workers can reach when they record the
    tuples [all]. *)
Record inv (all : list tup) (s : state) : Prop := Inv {
  inv_perm :
    default [] (results s) ++ concat (map pending_of (workers s)) ≡ₚ all;
  inv_lock : cs_count (workers s) = if locked s then 1%nat else 0%nat;
  inv_assign :
    ∀ w, w ∈ workers s → at_pc w = AtAssign → results s = None;
  inv_queue : ∀ w, w ∈ workers s → in_cs w = true → queue w ≠ []
}.

End Aggregator.

(** [utest.run], for one task executed on its own. *)
Definition utest_run `{Host} (sys_executable test_runner_path : string)
    (os : os_t) (inputs0 source0 : node) (bld : build_context) (w : world)
    : build_context * world :=
  let testdriver_node := inputs0 in
  let '(fu, bld) := Env.resolve os bld in
  let cwd := parent_abspath testdriver_node in
  let testcmd :=
    Utest.get_testcmd sys_executable test_runner_path (ctx_options bld)
                      testdriver_node in
  let '((returncode, stdout, elapsed), w) := popen_communicate testcmd cwd fu w in
  let x := Tup testdriver_node returncode stdout elapsed source0 in
  (Aggregator.append_result x bld, w).

(** ** print_test_summary *)

Module Summary.

(** The local function [get_time(seconds)]. *)
Definition get_time (seconds : Q) : string :=
  let '(m, s) := divmod60 seconds in
  if Qeq_bool m 0 then
    fmt_d (int_of_float (fl64 (seconds * 1000))) +:+ "ms"
  else
    fmt_02d (int_of_float m) +:+ ":" +:+ fmt_02d (int_of_float s).

(** Truth value of the exit code [x[1]]. *)
Definition failed (x : tup) : bool := negb (t_code x =? 0).

(** The body of the first [for] loop. *)
Definition print_pass (show : bool) (x : tup) : list console_record :=
  if negb (failed x) then
    if show then
      [ Pprint "GREEN" ("[" +:+ abspath (t_node x) +:+ " (TEST)] <<<<<<<<<<");
        Pprint "CYAN" (t_out x);
        Pprint "GREEN" ">>>>>>>>>>" ]
    else
      [ Pprint "GREEN"
          (abspath (t_node x) +:+ " (" +:+ get_time (t_time x) +:+ ")") ]
  else [].

(** The body of the second [for] loop. *)
Definition print_fail (x : tup) : list console_record :=
  if failed x then
    [ Pprint "YELLOW" ("[" +:+ abspath (t_node x) +:+ " (TEST)] <<<<<<<<<<");
      Pprint "CYAN" (t_out x);
      Pprint "YELLOW" ">>>>>>>>>>" ]
  else [].

(** The two count lines. *)
Definition pass_line (npass total : Z) : console_record :=
  Pprint "CYAN" ("  tests that pass " +:+ fmt_d npass +:+ "/" +:+ fmt_d total).

Definition fail_line (nfail total : Z) : console_record :=
  Pprint "CYAN" ("  tests that fail " +:+ fmt_d nfail +:+ "/" +:+ fmt_d total).

(** [print_test_summary(ctx)]: the number of failures and what is printed. *)
Definition print_test_summary (ctx : build_context) : Z * list console_record :=
  let lst := getattr_utest_results ctx in
  let total := Z.of_nat (length lst) in
  let tfail := Z.of_nat (length (List.filter failed lst)) in
  (tfail,
   [Pprint "CYAN" "Test Summary"]
   ++ [pass_line (total - tfail) total]
   ++ flat_map (print_pass (show_test_out (ctx_options ctx))) lst
   ++ [fail_line tfail total]
   ++ flat_map print_fail lst).

End Summary.

(** ** generate_coverage_report *)

Module Coverage.

Section WithHost.
Context `{Host}.

(** The first loop: the directories of the test drivers and of their
    sources. *)
Definition test_dir_paths (lst : list tup) : gset string :=
  foldl (fun acc x =>
           let p := parent_abspath (t_node x) in
           if bool_decide (p ∈ acc) then acc else acc ∪ {[p]}) ∅ lst.

Definition src_dir_paths (lst : list tup) : gset string :=
  foldl (fun acc x =>
           let p := parent_abspath (t_src x) in
           if bool_decide (p ∈ acc) then acc else acc ∪ {[p]}) ∅ lst.

(** [lcov_d]: ['-d', path] for each path of the union, in the order the set
    is iterated. *)
Definition lcov_d (lst : list tup) : list string :=
  flat_map (fun path => ["-d"; path])
           (elements (test_dir_paths lst ∪ src_dir_paths lst)).

Definition covdir (ctx : build_context) : string :=
  os_path_join (bldnode_abspath ctx) "_test_coverage".

Definition test_coverage_out_path (ctx : build_context) : string :=
  match coverage_out (ctx_options ctx) with
  | Some s => if truthy_str s then s else os_path_join (covdir ctx) "report"
  | None => os_path_join (covdir ctx) "report"
  end.

(** [cmd_descs]: the five commands and their descriptions. *)
Definition cmd_descs (ctx : build_context) : list (list string * string) :=
  let lst := getattr_utest_results ctx in
  let test_info_base := os_path_join (covdir ctx) "test_base.info" in
  let test_info_run := os_path_join (covdir ctx) "test_run.info" in
  let test_info_total := os_path_join (covdir ctx) "test_total.info" in
  let test_info_final := os_path_join (covdir ctx) "test_final.info" in
  let lcov_cmd1 :=
    env_LCOV ctx ++ ["--no-checksum"; "--no-external"; "-c"; "-i";
                     "-c"; "-o"; test_info_base] ++ lcov_d lst in
  let lcov_cmd2 :=
    env_LCOV ctx ++ ["--no-checksum"; "--no-external";
                     "-c"; "-o"; test_info_run] ++ lcov_d lst in
  let lcov_cmd3 :=
    env_LCOV ctx ++ ["--no-checksum"; "-a"; test_info_base;
                     "-a"; test_info_run; "-o"; test_info_total] in
  let lcov_cmd4 :=
    env_LCOV ctx ++ ["--no-checksum"; "--remove"; test_info_total; "*.t.cpp";
                     "-o"; test_info_final] in
  let genhtml_cmd :=
    [env_GENHTML0 ctx; "--function-coverage";
     "-o"; test_coverage_out_path ctx; test_info_final] in
  [ (lcov_cmd1, "Building baseline trace file");
    (lcov_cmd2, "Building test-run trace file");
    (lcov_cmd3, "Combining trace files");
    (lcov_cmd4, "Filtering trace file");
    (genhtml_cmd, "Generating html pages") ].

(** What the generator has done so far. *)
Record progress := Progress {
  p_world : world;
  p_console : list console_record;
  p_logfile : list string;            (* the lines of coverage.log *)
  p_started : list (list string)      (* the commands handed to Popen *)
}.

(** The three lines printed to the log file before a command is run. *)
Definition banner (cmd : list string) : list string :=
  [rule79; "run cmd: " +:+ str_of_cmd cmd; rule79].

(** The message of [Logs.info] for the command at index [cmd_idx]. *)
Definition step_msg (cmd_idx cmd_len : Z) (desc : string) : string :=
  "[" +:+ fmt_d (cmd_idx + 1) +:+ "/" +:+ fmt_d cmd_len +:+ "] "
  +:+ colors_YELLOW +:+ desc +:+ colors_NORMAL.

(** The [while cmd_idx < cmd_len] loop; [rest] is [cmd_descs[cmd_idx:]].
    Returns [is_success]. *)
Fixpoint run_cmds (cwd : string) (cmd_len cmd_idx : Z)
    (rest : list (list string * string)) (p : progress) : bool * progress :=
  match rest with
  | [] => (true, p)
  | (cmd, desc) :: rest' =>
      let msg := step_msg cmd_idx cmd_len desc in
      let cmd_idx := cmd_idx + 1 in
      let console := p_console p ++ [Info msg] in
      let logfile := p_logfile p ++ banner cmd in
      let '((out, rc), w) := popen_wait cmd cwd (p_world p) in
      let p := Progress w console (logfile ++ out) (p_started p ++ [cmd]) in
      if negb (rc =? 0) then (false, p)
      else run_cmds cwd cmd_len cmd_idx rest' p
  end.

(** The children the loop starts when no step fails: each command with
    the lines its child writes and the code it returns, the world being
    handed from one child to the next. *)
Fixpoint run_all (cwd : string) (cmds : list (list string * string))
    (w : world) : list (list string * list string * Z) :=
  match cmds with
  | [] => []
  | (cmd, _) :: rest =>
      let '((out, rc), w') := popen_wait cmd cwd w in
      (cmd, out, rc) :: run_all cwd rest w'
  end.

(** The section of the log file that belongs to one started step: its
    banner, then the output of its child. *)
Definition log_section (e : list string * list string * Z) : list string :=
  banner e.1.1 ++ e.1.2.

(** The lines written when the log file is opened. *)
Definition log_header (ctx : build_context) : list string :=
  [rule79; "all cmds: " +:+ str_of_cmd_descs (cmd_descs ctx); rule79].

(** [generate_coverage_report(ctx)] *)
Definition generate_coverage_report (ctx : build_context) (w : world)
    : bool * progress :=
  let logfile_path := os_path_join (bldnode_abspath ctx) "coverage.log" in
  let console :=
    [ Pprint "CYAN" "Generating Test Coverage Report";
      Pprint "GREEN" ("  log file: " +:+ logfile_path) ] in
  let p := Progress w console (log_header ctx) [] in
  let '(is_success, p) :=
    run_cmds (path_abspath ctx) (Z.of_nat (length (cmd_descs ctx))) 0
             (cmd_descs ctx) p in
  if is_success then
    (is_success,
     Progress (p_world p)
       (p_console p ++
          [ Pprint "CYAN" "Generated Report";
            Pprint "YELLOW"
              ("  " +:+ os_path_join (test_coverage_out_path ctx) "index.html") ])
       (p_logfile p) (p_started p))
  else (is_success, p).

End WithHost.

End Coverage.

(** ** post_build_fun *)

Module PostBuild.

Section WithHost.
Context `{Host}.

(** What [post_build_fun] leaves behind: the console, the final values of
    its locals [error_msg] and [is_success], and the message of
    [ctx.fatal] when it is raised ([None]: the function returns
    normally). *)
Record outcome := Outcome {
  o_console : list console_record;
  o_error_msg : string;
  o_is_success : bool;
  o_fatal : option string;
  o_started : list (list string);
  o_world : world
}.

(** [post_build_fun(ctx)] *)
Definition post_build_fun (ctx : build_context) (w : world) : outcome :=
  let is_success := true in
  let '(num_test_failures, console) := Summary.print_test_summary ctx in
  let error_msg := EmptyString in
  let '(error_msg, is_success, console) :=
    if 0 <? num_test_failures
    then (error_msg +:+ "Some tests have failed.", false, console)
    else (error_msg, is_success, console ++ [Info "All tests passed."]) in
  let '(error_msg, console, started, w) :=
    if env_with_coverage ctx then
      let '(is_coverage_success, p) := Coverage.generate_coverage_report ctx w in
      let is_coverage_success := false in
      let error_msg :=
        if negb is_coverage_success
        then error_msg +:+ nl +:+ "Failed to generate coverage report."
        else error_msg in
      (error_msg, console ++ Coverage.p_console p, Coverage.p_started p,
       Coverage.p_world p)
    else (error_msg, console, [], w) in
  let fatal :=
    if negb is_success
    then Some (error_msg +:+ " (" +:+ log_timer ctx +:+ ")")
    else None in
  Outcome console error_msg is_success fatal started w.

End WithHost.

End PostBuild.

(** ** A scripted host and sample data

    Used to run the definitions above on concrete inputs. *)

Module Samples.

Fixpoint ends_with_slash (s : string) : bool :=
  match s with
  | EmptyString => false
  | String c EmptyString => Ascii.eqb c "/"
  | String _ s' => ends_with_slash s'
  end.

(** [posixpath.join(a, b)] *)
Definition posix_join (a b : string) : string :=
  if String.prefix "/" b then b
  else if negb (truthy_str a) || ends_with_slash a then a +:+ b
  else a +:+ "/" +:+ b.

(** A host whose world is the list of the return codes of the children still
    to be started (0 once the list is exhausted); every child prints one
    line. *)
Definition scripted : Host := {|
  world := list Z;
  popen_communicate := fun _ _ _ w =>
    match w with
    | [] => ((0, EmptyString, 0%Q), [])
    | rc :: w' => ((rc, EmptyString, 0%Q), w')
    end;
  popen_wait := fun cmd _ w =>
    match w with
    | [] => ((["done"], 0), [])
    | rc :: w' => ((["done"], rc), w')
    end;
  os_path_join := posix_join;
  str_of_cmd := String.concat " ";
  str_of_cmd_descs := fun l =>
    String.concat "; " (map (fun cd => String.concat " " (fst cd)) l);
  colors_YELLOW := EmptyString;
  colors_NORMAL := EmptyString
|}.

Definition default_options : options :=
  Options "run" 0 4 false 200 false None false "memcheck".

Definition junit_options : options :=
  Options "run" 0 4 false 200 true None true "memcheck".

Definition a_t : node := Node "/b/g/a.t" "/b/g".
Definition b_t : node := Node "/b/g/b.t" "/b/g".
Definition c_t : node := Node "/b/h/c.t" "/b/h".
Definition a_src : node := Node "/s/g/a.t.cpp" "/s/g".
Definition b_src : node := Node "/s/g/b.t.cpp" "/s/g".
Definition c_src : node := Node "/s/h/c.t.cpp" "/s/h".

(** The end-to-end scenario: exit codes 0, 1, 0 and durations 0.01 s, 70 s,
    0.5 s. *)
Definition r_a : tup := Tup a_t 0 "ok a" (1 # 100) a_src.
Definition r_b : tup := Tup b_t 1 "FAILED b" 70 b_src.
Definition r_c : tup := Tup c_t 0 "ok c" (1 # 2) c_src.

Definition ctx_of (res : option (list tup)) (cov : bool) : build_context :=
  Bld [] None res default_options cov ["lcov"; "--gcov-tool"; "gcov"] "genhtml"
      "/b" "/s" "1.2s".

(** A build graph: two groups, three link outputs in two directories and a
    task generator without a link task. *)
Definition lib_g : task_gen := TaskGen (Some (LinkTask (Node "/b/g/libg.so" "/b/g") [])).
Definition lib_h : task_gen := TaskGen (Some (LinkTask (Node "/b/h/libh.so" "/b/h") [])).
Definition drv_g : task_gen := TaskGen (Some (LinkTask a_t [])).
Definition hdr_only : task_gen := TaskGen None.

Definition bld_graph : build_context :=
  Bld [[lib_g; hdr_only; lib_h]; [drv_g]] None None default_options false
      [] EmptyString "/b" "/s" "0s".

Definition linux : os_t :=
  OS (<["LD_LIBRARY_PATH" := "/usr/lib"]> (<["HOME" := "/root"]> ∅)) ":" false "linux".
Definition darwin : os_t :=
  OS (<["HOME" := "/root"]> ∅) ":" false "darwin".
Definition win32 : os_t :=
  OS (<["PATH" := "C:\bin"]> ∅) ";" true "win32".

End Samples.

(** ** Vocabulary of the properties *)

(** The arguments of a command line that set the JUnit output. *)
Definition junit_args (cmd : list string) : list string :=
  List.filter (String.prefix "--junit=") cmd.

(** The value of [error_msg] after the summary, before the coverage
    report. *)
Definition tests_msg (ctx : build_context) : string :=
  if 0 <? fst (Summary.print_test_summary ctx)
  then "Some tests have failed." else EmptyString.

(** [if s not in lst: lst.append(s)] *)
Definition add_dir (lst : list string) (s : string) : list string :=
  if bool_decide (s ∈ lst) then lst else lst ++ [s].

(** ** add_coverage, make_test and configure *)

(** [add_coverage(self)], which runs after [process_use] has made
    [self.uselib] a list; [uselib] is [None] when the task generator has no
    such attribute.  Returns the attribute after the call. *)
Definition add_coverage (with_coverage : bool) (uselib : option (list string))
    : option (list string) :=
  if with_coverage then
    match uselib with
    | Some (u :: us) =>
        if bool_decide ("GCOV" ∈ u :: us) then Some (u :: us)
        else Some ((u :: us) ++ ["GCOV"])
    | _ => Some ["GCOV"]
    end
  else uselib.

(** [make_test(self)]: the inputs of the [utest] task it creates, [None]
    when the task generator has no link task and no task is created. *)
Definition make_test (tg : task_gen) : option (list node) :=
  match link_task tg with
  | Some lt => Some (output0 lt :: outputs_rest lt)
  | None => None
  end.

(** [self.inputs[0]], the test driver of the task created by [make_test]. *)
Definition testdriver_of (tg : task_gen) : option node :=
  inputs ← make_test tg; head inputs.

(** What [configure] finds on the machine: [conf_check] tells whether
    [ctx.check(cxxflags=..., stlib=['gcov'], mandatory=True)] passes, and
    [conf_find_program name] is the list [ctx.find_program] stores in the
    environment, [None] when the program is not found.  A failing check or
    lookup raises waf's configuration error. *)
Record conf_host := ConfHost {
  conf_compiler_cc : string;                        (* ctx.env.COMPILER_CC *)
  conf_check : bool;
  conf_find_program : string → option (list string)
}.

(** The part of [ctx.env] that [configure] writes. *)
Record conf_env := ConfEnv {
  ce_with_coverage : bool;
  ce_GCOV : list string;
  ce_LCOV : list string;
  ce_GENHTML : list string
}.

Inductive conf_result :=
| ConfOk (env : conf_env)
| ConfFatal (msg : string)     (* ctx.fatal(msg) of this module *)
| ConfError.                   (* raised inside ctx.check / ctx.find_program
                                  or by [ctx.env.GCOV[0]] *)

(** [configure(ctx)]; [env0] is the environment before the call. *)
Definition configure (opt_with_coverage : bool) (h : conf_host) (env0 : conf_env)
    : conf_result :=
  if opt_with_coverage then
    if String.eqb (conf_compiler_cc h) "gcc" then
      if conf_check h then
        match conf_find_program h "gcov" with
        | None => ConfError
        | Some gcov =>
            match conf_find_program h "lcov" with
            | None => ConfError
            | Some lcov =>
                match conf_find_program h "genhtml" with
                | None => ConfError
                | Some genhtml =>
                    match gcov with
                    | [] => ConfError
                    | gcov0 :: _ =>
                        ConfOk (ConfEnv opt_with_coverage gcov
                                  (lcov ++ ["--gcov-tool"; gcov0]) genhtml)
                    end
                end
            end
        end
      else ConfError
    else ConfFatal "Coverage test is not supported on this compiler."
  else
    ConfOk (ConfEnv opt_with_coverage (ce_GCOV env0) (ce_LCOV env0)
              (ce_GENHTML env0)).

(** What worker [w], started with the queue [q], has recorded so far is
    in [res], in the order of [q]. *)
Definition recorded_in_order (res : list tup) (q : list tup)
    (w : Aggregator.worker) : Prop :=
  ∃ d, q = d ++ Aggregator.pending_of w ∧ sublist d res.

(** The arguments of a command line that concern valgrind. *)
Definition valgrind_args (cmd : list string) : list string :=
  List.filter (String.prefix "--valgrind") cmd.

(* ===================================================================== *)
(** * Part II: properties *)
(* ===================================================================== *)

(** ** The runnability decision *)

Section RunnableStatusFacts.
Variables SKIP_ME RUN_ME : Z.
Abbreviation decide_run := (Utest.runnable_status SKIP_ME RUN_ME).

Lemma runnable_status_not_run opts ret :
  test opts ≠ "run" → decide_run opts ret = SKIP_ME.
Proof.
  intros Hmode. unfold Utest.runnable_status.
  destruct (String.eqb_spec (test opts) "run") as [E|E]; [contradiction|reflexivity].
Qed.

Lemma runnable_status_run opts ret :
  test opts = "run" →
  decide_run opts ret = if ret =? SKIP_ME then RUN_ME else ret.
Proof.
  intros Hmode. unfold Utest.runnable_status.
  rewrite Hmode. cbn. reflexivity.
Qed.
End RunnableStatusFacts.

(** C5. In mode [none] or [build] the decision is SKIP whatever the
    staleness check says; in mode [run] a staleness check that says SKIP is
    overridden to RUN (and so is never SKIP), and any other status of the
    staleness check is returned unchanged. *)
Theorem runnable_status_decision (SKIP_ME RUN_ME : Z) (opts : options) (ret : Z) :
  SKIP_ME ≠ RUN_ME →
  ((test opts = "none" ∨ test opts = "build") →
     Utest.runnable_status SKIP_ME RUN_ME opts ret = SKIP_ME)
  ∧ (test opts = "run" → ret = SKIP_ME →
     Utest.runnable_status SKIP_ME RUN_ME opts ret = RUN_ME
     ∧ Utest.runnable_status SKIP_ME RUN_ME opts ret ≠ SKIP_ME)
  ∧ (test opts = "run" → ret ≠ SKIP_ME →
     Utest.runnable_status SKIP_ME RUN_ME opts ret = ret).
Proof.
  intros Hne. repeat split.
  - intros [Hm|Hm]; apply runnable_status_not_run; rewrite Hm; discriminate.
  - rewrite runnable_status_run by assumption. subst ret.
    now rewrite Z.eqb_refl.
  - rewrite runnable_status_run by assumption. subst ret.
    rewrite Z.eqb_refl. congruence.
  - intros Hm Hret. rewrite runnable_status_run by assumption.
    destruct (Z.eqb_spec ret SKIP_ME); [contradiction|reflexivity].
Qed.

(** The decision on waf's own constants ([SKIP_ME = -2], [RUN_ME = -3],
    [ASK_LATER = -1]) for the three modes. *)
Lemma runnable_status_decision_witness :
  Utest.runnable_status (-2) (-3) (Options "build" 0 4 false 200 false None false "memcheck") (-3) = -2
  ∧ Utest.runnable_status (-2) (-3) Samples.default_options (-2) = -3
  ∧ Utest.runnable_status (-2) (-3) Samples.default_options (-1) = -1.
Proof.
  pose proof (runnable_status_decision (-2) (-3)
                (Options "build" 0 4 false 200 false None false "memcheck") (-3)
                ltac:(lia)) as (Hskip & _ & _).
  pose proof (runnable_status_decision (-2) (-3) Samples.default_options (-2)
                ltac:(lia)) as (_ & Hrun & _).
  pose proof (runnable_status_decision (-2) (-3) Samples.default_options (-1)
                ltac:(lia)) as (_ & _ & Hkeep).
  split; [apply Hskip; right; reflexivity|].
  split; [apply Hrun; reflexivity|].
  apply Hkeep; [reflexivity|lia].
Defined.

(** ** The test-runner command line *)

Lemma append_cons (c : ascii) (s t : string) :
  String c s +:+ t = String c (s +:+ t).
Proof. reflexivity. Qed.

Lemma append_nil_l (t : string) : EmptyString +:+ t = t.
Proof. reflexivity. Qed.

Lemma prefix_empty (s : string) : String.prefix EmptyString s = true.
Proof. destruct s; reflexivity. Qed.

(** C10. With the JUnit toggle on, the command line carries exactly one
    JUnit argument, and its path is the absolute path of the test binary
    followed by [-junit.xml]; with the toggle off it carries none.  The
    interpreter, the runner script and the test binary are paths, not
    options. *)
Theorem get_testcmd_junit (sys_executable test_runner_path : string)
    (opts : options) (nd : node) :
  String.prefix "--junit=" sys_executable = false →
  String.prefix "--junit=" test_runner_path = false →
  String.prefix "--junit=" (abspath nd) = false →
  junit_args (Utest.get_testcmd sys_executable test_runner_path opts nd)
  = if test_junit opts then ["--junit=" +:+ abspath nd +:+ "-junit.xml"] else [].
Proof.
  intros He Hr Hn. unfold junit_args, Utest.get_testcmd.
  destruct (test_junit opts), (valgrind opts);
    rewrite ?append_cons, ?append_nil_l; cbn;
    rewrite He, Hr, Hn, ?prefix_empty; reflexivity.
Qed.

Lemma get_testcmd_junit_witness :
  junit_args (Utest.get_testcmd "/usr/bin/python" "/r/bin/bde_runtest.py"
                Samples.junit_options Samples.a_t)
  = ["--junit=/b/g/a.t-junit.xml"]
  ∧ junit_args (Utest.get_testcmd "/usr/bin/python" "/r/bin/bde_runtest.py"
                Samples.default_options Samples.a_t)
  = [].
Proof.
  split.
  - exact (get_testcmd_junit "/usr/bin/python" "/r/bin/bde_runtest.py"
             Samples.junit_options Samples.a_t eq_refl eq_refl eq_refl).
  - exact (get_testcmd_junit "/usr/bin/python" "/r/bin/bde_runtest.py"
             Samples.default_options Samples.a_t eq_refl eq_refl eq_refl).
Defined.

(** ** Formatting a duration *)

Lemma int_of_float_nonneg (x : Q) :
  (0 <= x)%Q → int_of_float x = Qfloor x.
Proof.
  destruct x as [n d]. unfold Qle, int_of_float, Qfloor. cbn. intros Hn.
  apply Z.quot_div_nonneg; lia.
Qed.

Lemma int_of_float_inject_Z (z : Z) : int_of_float (inject_Z z) = z.
Proof. unfold int_of_float, inject_Z. cbn. apply Z.quot_1_r. Qed.

Lemma Qfloor_div60 (t : Q) : Qfloor (t / 60) = Qfloor t / 60.
Proof.
  destruct t as [n d]. unfold Qdiv, Qmult, Qinv, Qfloor. cbn.
  rewrite Z.mul_1_r, Pos2Z.inj_mul, Z.div_div by lia. reflexivity.
Qed.

Lemma Qfloor_mod60 (t : Q) :
  Qfloor (t - 60 * inject_Z (Qfloor (t / 60))) = Qfloor t mod 60.
Proof.
  rewrite Qfloor_div60. destruct t as [n d].
  unfold Qminus, Qplus, Qopp, Qmult, inject_Z, Qfloor. cbn.
  rewrite !Pos.mul_1_r, !Z.mul_1_r.
  replace (n + - (60 * (n / Z.pos d / 60)) * Z.pos d)
    with (n + (- (60 * (n / Z.pos d / 60))) * Z.pos d) by reflexivity.
  rewrite Z.div_add by lia.
  rewrite (Z.mod_eq (n / Z.pos d) 60) by lia. lia.
Qed.

Lemma Qfloor_nonneg (t : Q) : (0 <= t)%Q → 0 <= Qfloor t.
Proof.
  intros Ht. change 0 with (Qfloor (inject_Z 0)). now apply Qfloor_resp_le.
Qed.

Lemma Qfloor_below (t : Q) (z : Z) : (t < inject_Z z)%Q → Qfloor t < z.
Proof.
  intros Ht. destruct (Z_lt_le_dec (Qfloor t) z) as [|Hle]; [assumption|].
  exfalso. apply (Qlt_irrefl t). eapply Qlt_le_trans; [exact Ht|].
  eapply Qle_trans; [|apply Qfloor_le].
  rewrite <- Zle_Qle. exact Hle.
Qed.

Lemma Qfloor_at_least (t : Q) (z : Z) : (inject_Z z <= t)%Q → z <= Qfloor t.
Proof.
  intros Ht. rewrite <- (Qfloor_Z z). now apply Qfloor_resp_le.
Qed.

(** *** Rounding to binary64 *)

Lemma pow2_pos (e : Z) : (0 < 2 ^ e)%Q.
Proof. apply Qpower_0_lt. reflexivity. Qed.

Lemma pow2_inject (a : Z) : 0 <= a -> (2 ^ a == inject_Z (2 ^ a))%Q.
Proof. intros Ha. symmetry. apply (Zpower_Qpower 2 a Ha). Qed.

Lemma pow2_add (a b : Z) : (2 ^ (a + b) == 2 ^ a * 2 ^ b)%Q.
Proof. apply Qpower_plus. discriminate. Qed.

Lemma pow2_sub (a b : Z) : (2 ^ (a - b) == 2 ^ a / 2 ^ b)%Q.
Proof. apply Qpower_minus. discriminate. Qed.

Lemma pow2_le (a b : Z) : a <= b -> (2 ^ a <= 2 ^ b)%Q.
Proof. intros H. apply Qpower_le_compat_l; [exact H|discriminate]. Qed.

Lemma pow2_lt_inv (a b : Z) : (2 ^ a < 2 ^ b)%Q -> a < b.
Proof. intros H. apply (Qpower_lt_compat_l_inv 2); [exact H|reflexivity]. Qed.

Lemma rnd_exact (y : Q) (m : Z) : (y == inject_Z m)%Q -> rnd y = m.
Proof.
  intros Hy. unfold rnd.
  assert (Hf : Qfloor y = m) by (rewrite Hy; apply Qfloor_Z).
  rewrite Hf.
  assert (Hc : (y - inject_Z m ?= 1 # 2)%Q = Lt).
  { rewrite <- Qlt_alt. rewrite Hy. lra. }
  now rewrite Hc.
Qed.

Lemma rnd_ge (y : Q) (m : Z) : (inject_Z m <= y)%Q -> m <= rnd y.
Proof.
  intros Hy. unfold rnd.
  assert (Hf : m <= Qfloor y).
  { rewrite <- (Qfloor_Z m). now apply Qfloor_resp_le. }
  destruct (y - inject_Z (Qfloor y) ?= 1 # 2)%Q; [destruct (Z.even _)| |]; lia.
Qed.

Lemma ilog2_spec (x : Q) :
  (0 < x)%Q -> (2 ^ ilog2 x <= x)%Q /\ (x < 2 ^ (ilog2 x + 1))%Q.
Proof.
  intros Hx. destruct x as [n d]. unfold ilog2. cbn [Qnum Qden].
  assert (Hn : 0 < n) by (unfold Qlt in Hx; cbn in Hx; lia).
  destruct (Z.log2_spec n Hn) as [Hn1 Hn2].
  destruct (Z.log2_spec (Z.pos d) ltac:(lia)) as [Hd1 Hd2].
  set (a := Z.log2 n) in *. set (b := Z.log2 (Z.pos d)) in *.
  assert (Ha : 0 <= a) by apply Z.log2_nonneg.
  assert (Hb : 0 <= b) by apply Z.log2_nonneg.
  assert (Hx' : (n # d == inject_Z n / inject_Z (Z.pos d))%Q) by apply Qmake_Qdiv.
  assert (HN1 : (2 ^ a <= inject_Z n)%Q)
    by (rewrite pow2_inject by lia; now rewrite <- Zle_Qle).
  assert (HN2 : (inject_Z n < 2 ^ (a + 1))%Q)
    by (rewrite pow2_inject by lia; now rewrite <- Zlt_Qlt).
  assert (HD1 : (2 ^ b <= inject_Z (Z.pos d))%Q)
    by (rewrite pow2_inject by lia; now rewrite <- Zle_Qle).
  assert (HD2 : (inject_Z (Z.pos d) < 2 ^ (b + 1))%Q)
    by (rewrite pow2_inject by lia; now rewrite <- Zlt_Qlt).
  assert (HDpos : (0 < inject_Z (Z.pos d))%Q) by reflexivity.
  assert (HNpos : (0 < inject_Z n)%Q) by (unfold Qlt; cbn; lia).
  destruct (Qle_bool (2 ^ (a - b)) (n # d)) eqn:Hcmp.
  - apply Qle_bool_iff in Hcmp. split; [exact Hcmp|].
    replace (a - b + 1) with ((a + 1) - b) by lia.
    rewrite pow2_sub, Hx'.
    pose proof (pow2_pos b) as Hpb.
    apply Qlt_shift_div_l; [exact Hpb|].
    unfold Qdiv. rewrite <- Qmult_assoc, (Qmult_comm (/ _)), Qmult_assoc.
    apply Qlt_shift_div_r; [exact HDpos|].
    clear - HN2 HD1 HDpos HNpos Hpb.
    apply Qle_lt_trans with (inject_Z n * inject_Z (Z.pos d))%Q.
    + apply Qmult_le_l; [exact HNpos|exact HD1].
    + apply Qmult_lt_r; [exact HDpos|exact HN2].
  - assert (Hlt : (n # d < 2 ^ (a - b))%Q).
    { apply Qnot_le_lt. intros Hle. apply Qle_bool_iff in Hle. congruence. }
    split; [|now replace (a - b - 1 + 1) with (a - b) by lia].
    replace (a - b - 1) with (a - (b + 1)) by lia.
    rewrite pow2_sub, Hx'.
    pose proof (pow2_pos (b + 1)) as Hpb.
    apply Qle_shift_div_r; [exact Hpb|].
    unfold Qdiv. rewrite <- Qmult_assoc, (Qmult_comm (/ _)), Qmult_assoc.
    apply Qle_shift_div_l; [exact HDpos|].
    clear - HN1 HD2 HDpos HNpos Hpb.
    apply Qle_trans with (inject_Z n * inject_Z (Z.pos d))%Q.
    + apply Qmult_le_r; [exact HDpos|exact HN1].
    + apply Qmult_le_l; [exact HNpos|]. now apply Qlt_le_weak.
Qed.

Lemma fl64_zero (x : Q) : (x == 0)%Q -> fl64 x = 0%Q.
Proof. intros Hx. unfold fl64. apply Qeq_bool_iff in Hx. now rewrite Hx. Qed.

Lemma fl64_nonzero (x : Q) :
  ~ (x == 0)%Q ->
  fl64 x = (inject_Z (rnd (x / 2 ^ ulp_exp x)) * 2 ^ ulp_exp x)%Q.
Proof.
  intros Hx. unfold fl64, ulp_exp.
  destruct (Qeq_bool x 0) eqn:E; [|reflexivity].
  apply Qeq_bool_iff in E. contradiction.
Qed.

Lemma fl64_ge_scaled (x : Q) (m : Z) :
  ~ (x == 0)%Q ->
  (inject_Z m <= x / 2 ^ ulp_exp x)%Q ->
  (inject_Z m * 2 ^ ulp_exp x <= fl64 x)%Q.
Proof.
  intros Hx Hm. rewrite fl64_nonzero by exact Hx.
  apply Qmult_le_compat_r; [|apply Qlt_le_weak, pow2_pos].
  rewrite <- Zle_Qle. now apply rnd_ge.
Qed.

Lemma ilog2_pos_bounds (x : Q) :
  (0 < x)%Q ->
  (2 ^ ilog2 (Qabs x) <= x)%Q /\ (x < 2 ^ (ilog2 (Qabs x) + 1))%Q.
Proof.
  intros Hx.
  assert (Habs : (Qabs x == x)%Q) by (apply Qabs_pos; now apply Qlt_le_weak).
  destruct (ilog2_spec (Qabs x)) as [H1 H2];
    [eapply Qlt_le_trans; [exact Hx|]; rewrite Habs; apply Qle_refl|].
  split.
  - eapply Qle_trans; [exact H1|]. rewrite Habs. apply Qle_refl.
  - eapply Qle_lt_trans; [|exact H2]. rewrite Habs. apply Qle_refl.
Qed.

Lemma ulp_exp_ge1 (x : Q) :
  (1 <= x)%Q -> 0 <= ilog2 (Qabs x) /\ ulp_exp x = ilog2 (Qabs x) - 52.
Proof.
  intros Hx. destruct (ilog2_pos_bounds x) as [_ H2]; [lra|].
  assert (Hk : 0 < ilog2 (Qabs x) + 1).
  { apply pow2_lt_inv. change (2 ^ 0)%Q with 1%Q. lra. }
  unfold ulp_exp. lia.
Qed.

(** Rounding does not go below the power of two under the number. *)
Lemma fl64_ge_pow2 (x : Q) :
  (1 <= x)%Q -> (2 ^ ilog2 (Qabs x) <= fl64 x)%Q.
Proof.
  intros Hx. destruct (ulp_exp_ge1 x Hx) as [Hk He].
  destruct (ilog2_pos_bounds x) as [H1 _]; [lra|].
  set (k := ilog2 (Qabs x)) in *.
  assert (Hne : ~ (x == 0)%Q) by lra.
  pose proof (fl64_ge_scaled x (2 ^ 52) Hne) as Hs. rewrite He in Hs.
  assert (H52 : (inject_Z (2 ^ 52) * 2 ^ (k - 52) == 2 ^ k)%Q).
  { rewrite <- pow2_inject by lia. rewrite <- pow2_add. now replace (52 + (k - 52)) with k by lia. }
  rewrite <- H52. apply Hs.
  apply Qle_shift_div_l; [apply pow2_pos|]. rewrite H52. exact H1.
Qed.

Lemma fl64_ge_1 (x : Q) : (1 <= x)%Q -> (1 <= fl64 x)%Q.
Proof.
  intros Hx. destruct (ulp_exp_ge1 x Hx) as [Hk _].
  eapply Qle_trans; [|now apply fl64_ge_pow2].
  change 1%Q with (2 ^ 0)%Q. now apply pow2_le.
Qed.

Lemma fl64_ge_60 (x : Q) : (60 <= x)%Q -> (60 <= fl64 x)%Q.
Proof.
  intros Hx.
  assert (Hx1 : (1 <= x)%Q) by lra.
  destruct (ulp_exp_ge1 x Hx1) as [_ He].
  destruct (ilog2_pos_bounds x) as [_ H2]; [lra|].
  set (k := ilog2 (Qabs x)) in *.
  assert (Hk : 5 < k + 1).
  { apply pow2_lt_inv. eapply Qle_lt_trans; [|exact H2].
    change (2 ^ 5)%Q with 32%Q. lra. }
  destruct (Z.eq_dec k 5) as [E|E].
  - assert (Hne : ~ (x == 0)%Q) by lra.
    pose proof (fl64_ge_scaled x (60 * 2 ^ 47) Hne) as Hs.
    rewrite He, E in Hs. change (5 - 52) with (-47) in Hs.
    assert (H60 : (inject_Z (60 * 2 ^ 47) * 2 ^ (-47) == 60)%Q) by reflexivity.
    rewrite <- H60. apply Hs.
    apply Qle_shift_div_l; [apply pow2_pos|]. rewrite H60. exact Hx.
  - eapply Qle_trans; [|now apply fl64_ge_pow2].
    apply Qle_trans with (2 ^ 6)%Q; [change (2 ^ 6)%Q with 64%Q; lra|].
    apply pow2_le. lia.
Qed.

(** An integer below 2^53 is a binary64 value: rounding leaves it. *)
Lemma fl64_int_exact (x : Q) (z : Z) :
  (x == inject_Z z)%Q -> 0 < z < 2 ^ 53 -> (fl64 x == inject_Z z)%Q.
Proof.
  intros Hx [Hz1 Hz2].
  assert (Hx1 : (1 <= x)%Q).
  { rewrite Hx. change 1%Q with (inject_Z 1). rewrite <- Zle_Qle. lia. }
  destruct (ulp_exp_ge1 x Hx1) as [Hk He].
  destruct (ilog2_pos_bounds x) as [H1 _]; [lra|].
  set (k := ilog2 (Qabs x)) in *.
  assert (Hk2 : k < 53).
  { apply pow2_lt_inv. eapply Qle_lt_trans; [exact H1|].
    rewrite Hx, pow2_inject by lia. now rewrite <- Zlt_Qlt. }
  rewrite fl64_nonzero by lra. rewrite He.
  assert (Hscaled : (x / 2 ^ (k - 52) == inject_Z (z * 2 ^ (52 - k)))%Q).
  { rewrite inject_Z_mult, <- pow2_inject by lia. rewrite Hx.
    replace (k - 52) with (- (52 - k)) by lia. rewrite Qpower_opp.
    field. pose proof (pow2_pos (52 - k)). lra. }
  rewrite (rnd_exact _ _ Hscaled).
  rewrite inject_Z_mult, <- pow2_inject by lia.
  rewrite <- Qmult_assoc, <- pow2_add.
  replace (52 - k + (k - 52)) with 0 by lia. change (2 ^ 0)%Q with 1%Q. ring.
Qed.

(** *** divmod and get_time *)

(** [fmod] of a duration that is not negative: what is left of it after
    the whole minutes. *)
Lemma fmod60_nonneg (t : Q) :
  (0 <= t)%Q →
  fmod60 t = (t - 60 * inject_Z (Qfloor (t / 60)))%Q
  ∧ (0 <= fmod60 t)%Q ∧ (fmod60 t < 60)%Q
  ∧ (t - fmod60 t == inject_Z (60 * (Qfloor t / 60)))%Q.
Proof.
  intros Ht. unfold fmod60.
  assert (Hq : (0 <= t / 60)%Q).
  { apply Qle_shift_div_l; [reflexivity|]. lra. }
  rewrite (int_of_float_nonneg _ Hq).
  pose proof (Qfloor_le (t / 60)) as Hlo.
  pose proof (Qlt_floor (t / 60)) as Hhi.
  rewrite inject_Z_plus in Hhi. change (inject_Z 1) with 1%Q in Hhi.
  assert (Ht60 : (t == 60 * (t / 60))%Q) by field.
  split; [reflexivity|].
  rewrite <- Qfloor_div60.
  set (fq := inject_Z (Qfloor (t / 60))) in *.
  repeat split.
  - lra.
  - lra.
  - rewrite inject_Z_mult. fold fq. change (inject_Z 60) with 60%Q. ring.
Qed.

Lemma Qeq_bool_ge_1 (x : Q) : (1 <= x)%Q → Qeq_bool x 0 = false.
Proof.
  intros Hx. destruct (Qeq_bool x 0) eqn:E; [|reflexivity].
  apply Qeq_bool_iff in E. lra.
Qed.

Lemma divmod60_small (t : Q) :
  (0 <= t)%Q → (t < 60)%Q → Qeq_bool (fst (divmod60 t)) 0 = true.
Proof.
  intros H0 H60.
  destruct (fmod60_nonneg t H0) as (_ & Hge & _ & Hsub).
  assert (Hfl : Qfloor t / 60 = 0).
  { apply Z.div_small. split; [now apply Qfloor_nonneg|].
    apply Qfloor_below. exact H60. }
  rewrite Hfl in Hsub. change (inject_Z (60 * 0)) with 0%Q in Hsub.
  unfold divmod60.
  rewrite (fl64_zero _ Hsub).
  assert (Hdiv : fl64 (0 / 60) = 0%Q) by (apply fl64_zero; reflexivity).
  rewrite Hdiv.
  apply Qle_bool_iff in Hge. rewrite Hge.
  destruct (Qeq_bool (fmod60 t) 0); reflexivity.
Qed.

(** From one minute on the quotient of [divmod] is at least 1, and it is
    the number of whole minutes as long as the duration is below 2^53
    seconds; the remainder is exact, its integer part is the seconds. *)
Lemma divmod60_large (t : Q) :
  (60 <= t)%Q →
  Qeq_bool (fst (divmod60 t)) 0 = false
  ∧ 1 <= int_of_float (fst (divmod60 t))
  ∧ int_of_float (snd (divmod60 t)) = Qfloor t mod 60
  ∧ ((t < inject_Z (2 ^ 53))%Q →
     int_of_float (fst (divmod60 t)) = Qfloor t / 60).
Proof.
  intros H60.
  assert (H0 : (0 <= t)%Q) by lra.
  destruct (fmod60_nonneg t H0) as (Hmd & Hge & Hlt & Hsub).
  assert (Hq : 1 <= Qfloor t / 60).
  { apply Z.div_le_lower_bound; [lia|]. apply Qfloor_at_least. exact H60. }
  assert (Hsecs : int_of_float (fmod60 t) = Qfloor t mod 60).
  { rewrite (int_of_float_nonneg _ Hge), Hmd. apply Qfloor_mod60. }
  assert (HA : (60 <= fl64 (t - fmod60 t))%Q).
  { apply fl64_ge_60. rewrite Hsub.
    change 60%Q with (inject_Z 60). rewrite <- Zle_Qle. lia. }
  assert (HD : (1 <= fl64 (fl64 (t - fmod60 t) / 60))%Q).
  { apply fl64_ge_1. apply Qle_shift_div_l; [reflexivity|]. lra. }
  assert (Hexact : (t < inject_Z (2 ^ 53))%Q →
                   (fl64 (fl64 (t - fmod60 t) / 60)
                    == inject_Z (Qfloor t / 60))%Q).
  { intros Hbig.
    assert (Hz : 60 * (Qfloor t / 60) < 2 ^ 53).
    { rewrite Zlt_Qlt. eapply Qle_lt_trans; [|exact Hbig].
      rewrite <- Hsub. lra. }
    assert (HAe : (fl64 (t - fmod60 t) == inject_Z (60 * (Qfloor t / 60)))%Q)
      by (apply fl64_int_exact; [exact Hsub|lia]).
    apply fl64_int_exact; [|lia].
    rewrite HAe, inject_Z_mult. change (inject_Z 60) with 60%Q. field. }
  unfold divmod60.
  set (md := fmod60 t) in *.
  set (D := fl64 (fl64 (t - md) / 60)) in *.
  apply Qle_bool_iff in Hge as Hgeb. rewrite Hgeb.
  assert (HDne : Qeq_bool D 0 = false) by (apply Qeq_bool_ge_1; exact HD).
  assert (HfD : 1 <= Qfloor D) by (apply Qfloor_at_least; exact HD).
  assert (HfDQ : (1 <= inject_Z (Qfloor D))%Q).
  { change 1%Q with (inject_Z 1). now rewrite <- Zle_Qle. }
  assert (Hmd0 : int_of_float (if negb (Qeq_bool md 0) then md else 0%Q)
                 = Qfloor t mod 60).
  { destruct (Qeq_bool md 0) eqn:E; cbn [negb]; [|exact Hsecs].
    apply Qeq_bool_iff in E. rewrite <- Hsecs, (int_of_float_nonneg _ Hge).
    rewrite E. reflexivity. }
  assert (Hshape :
            (let '(md0, div) :=
               if negb (Qeq_bool md 0)
               then if negb true then (fl64 (md + 60), fl64 (D - 1)) else (md, D)
               else (0%Q, D) in
             (if negb (Qeq_bool div 0)
              then if negb (Qle_bool (fl64 (div - inject_Z (Qfloor div))) (1 # 2))
                   then fl64 (inject_Z (Qfloor div) + 1)
                   else inject_Z (Qfloor div)
              else 0%Q, md0))
            = (if negb (Qle_bool (fl64 (D - inject_Z (Qfloor D))) (1 # 2))
               then fl64 (inject_Z (Qfloor D) + 1)
               else inject_Z (Qfloor D),
               if negb (Qeq_bool md 0) then md else 0%Q)).
  { destruct (Qeq_bool md 0); cbn [negb]; rewrite HDne; reflexivity. }
  rewrite Hshape. cbn [fst snd].
  split; [|split; [|split; [exact Hmd0|]]].
  - destruct (negb (Qle_bool (fl64 (D - inject_Z (Qfloor D))) (1 # 2))).
    + apply Qeq_bool_ge_1, fl64_ge_1. lra.
    + apply Qeq_bool_ge_1. exact HfDQ.
  - destruct (negb (Qle_bool (fl64 (D - inject_Z (Qfloor D))) (1 # 2))).
    + assert (Hf1 : (1 <= fl64 (inject_Z (Qfloor D) + 1))%Q).
      { apply fl64_ge_1. lra. }
      rewrite int_of_float_nonneg by lra. now apply (Qfloor_at_least _ 1).
    + now rewrite int_of_float_inject_Z.
  - intros Hbig. specialize (Hexact Hbig).
    assert (HfDq : Qfloor D = Qfloor t / 60) by (rewrite Hexact; apply Qfloor_Z).
    assert (Hfrac : fl64 (D - inject_Z (Qfloor D)) = 0%Q).
    { apply fl64_zero. rewrite HfDq, Hexact. ring. }
    rewrite Hfrac. cbn [Qle_bool negb]. change (Qle_bool 0 (1 # 2)) with true.
    cbn [negb]. rewrite int_of_float_inject_Z. exact HfDq.
Qed.

(** The branch of [get_time] for a duration of one minute or more. *)
Lemma get_time_minutes (t : Q) :
  (60 <= t)%Q →
  Summary.get_time t
  = fmt_02d (int_of_float (fst (divmod60 t))) +:+ ":"
    +:+ fmt_02d (Qfloor t mod 60).
Proof.
  intros H60. destruct (divmod60_large t H60) as (Hm & _ & Hs & _).
  unfold Summary.get_time. destruct (divmod60 t) as [m s].
  cbn [fst snd] in *. now rewrite Hm, Hs.
Qed.

(** C4. A duration [t] with [0 <= t < 60] is rendered as the integer part
    of the float product [t * 1000] followed by [ms]; a duration
    [t >= 60] as minutes and seconds, each zero-padded to two digits,
    separated by a colon, the seconds being the whole seconds of [t] modulo
    60 and the minutes, at least 1, the whole minutes of [t] (for every
    duration below 2^53 seconds, beyond which the float quotient is
    rounded).  0.25 s gives [250ms] and 125 s gives [02:05]. *)
Theorem get_time_format (t : Q) :
  ((0 <= t)%Q → (t < 60)%Q →
     Summary.get_time t = fmt_d (int_of_float (fl64 (t * 1000))) +:+ "ms")
  ∧ ((60 <= t)%Q →
     ∃ minutes : Z,
       Summary.get_time t
       = fmt_02d minutes +:+ ":" +:+ fmt_02d (Qfloor t mod 60)
       ∧ 1 <= minutes
       ∧ ((t < inject_Z (2 ^ 53))%Q → minutes = Qfloor t / 60))
  ∧ Summary.get_time (1 # 4) = "250ms"
  ∧ Summary.get_time 125 = "02:05".
Proof.
  split; [|split; [|split; vm_compute; reflexivity]].
  - intros H0 H60. pose proof (divmod60_small t H0 H60) as Hm.
    unfold Summary.get_time. destruct (divmod60 t) as [m s].
    cbn [fst] in Hm. now rewrite Hm.
  - intros H60. destruct (divmod60_large t H60) as (_ & Hge & _ & Hq).
    exists (int_of_float (fst (divmod60 t))).
    split; [now apply get_time_minutes|]. split; assumption.
Qed.

(** The float nearest to 0.009, whose product with 1000 rounds to 9, and
    70 seconds. *)
Lemma get_time_format_witness :
  Summary.get_time (5188146770730811 # 576460752303423488) = "9ms"
  ∧ Summary.get_time 70 = "01:10".
Proof.
  split.
  - rewrite (proj1 (get_time_format (5188146770730811 # 576460752303423488)))
      by (try discriminate; reflexivity).
    vm_compute. reflexivity.
  - destruct (proj1 (proj2 (get_time_format 70)) ltac:(discriminate))
      as (minutes & Ht & _ & Hmin).
    rewrite Ht, Hmin by reflexivity. reflexivity.
Defined.

(** ** The summary *)

Lemma filter_failed_Permutation (l l' : list tup) :
  l ≡ₚ l' → List.filter Summary.failed l ≡ₚ List.filter Summary.failed l'.
Proof.
  induction 1 as [|x l l' _ IH|x y l|l l' l'' _ IH1 _ IH2]; cbn.
  - constructor.
  - destruct (Summary.failed x); [constructor|]; exact IH.
  - destruct (Summary.failed x), (Summary.failed y);
      try reflexivity. apply perm_swap.
  - etransitivity; eassumption.
Qed.

Lemma filter_failed_passing (l : list tup) :
  Forall (λ x, t_code x = 0) l → List.filter Summary.failed l = [].
Proof.
  induction 1 as [|x l Hx _ IH]; [reflexivity|].
  cbn. unfold Summary.failed at 1. rewrite Hx. cbn. exact IH.
Qed.

Lemma filter_failed_failing (l : list tup) :
  Forall (λ x, t_code x ≠ 0) l → List.filter Summary.failed l = l.
Proof.
  induction 1 as [|x l Hx _ IH]; [reflexivity|].
  cbn. unfold Summary.failed at 1.
  destruct (Z.eqb_spec (t_code x) 0); [contradiction|]. cbn. now rewrite IH.
Qed.

Lemma print_pass_failing (show : bool) (l : list tup) :
  Forall (λ x, t_code x ≠ 0) l → flat_map (Summary.print_pass show) l = [].
Proof.
  induction 1 as [|x l Hx _ IH]; [reflexivity|].
  cbn. rewrite IH. unfold Summary.print_pass, Summary.failed.
  destruct (Z.eqb_spec (t_code x) 0); [contradiction|reflexivity].
Qed.

Lemma print_fail_passing (l : list tup) :
  Forall (λ x, t_code x = 0) l → flat_map Summary.print_fail l = [].
Proof.
  induction 1 as [|x l Hx _ IH]; [reflexivity|].
  cbn. rewrite IH. unfold Summary.print_fail, Summary.failed.
  rewrite Hx. reflexivity.
Qed.

(** The number of failures counted by the summary, for a result list that
    splits into [passing] and [failing]. *)
Lemma count_failed_split (lst passing failing : list tup) :
  lst ≡ₚ passing ++ failing →
  Forall (λ x, t_code x = 0) passing →
  Forall (λ x, t_code x ≠ 0) failing →
  length lst = (length passing + length failing)%nat
  ∧ length (List.filter Summary.failed lst) = length failing.
Proof.
  intros Hperm Hp Hf. split.
  - rewrite (Permutation_length Hperm). apply length_app.
  - rewrite (Permutation_length (filter_failed_Permutation _ _ Hperm)).
    rewrite List.filter_app, filter_failed_passing, filter_failed_failing
      by assumption.
    reflexivity.
Qed.

(** C3. When the [N] results recorded in the build context consist, in any
    order, of the results [passing] (exit code 0) and the [k] results
    [failing] (exit code not 0), the summary prints the line "tests that
    pass (N-k)/N", then the entries of the passing results, then the line
    "tests that fail k/N", then the entries of the failing results, and
    returns [k].  The counts and the returned value therefore do not depend
    on the order in which the results were appended, and the printed
    entries are the same up to their order. *)
Theorem print_test_summary_counts (ctx : build_context)
    (passing failing : list tup) :
  getattr_utest_results ctx ≡ₚ passing ++ failing →
  Forall (λ x, t_code x = 0) passing →
  Forall (λ x, t_code x ≠ 0) failing →
  let N := Z.of_nat (length passing + length failing) in
  let k := Z.of_nat (length failing) in
  0 <= k <= N
  ∧ (∃ pass_entries fail_entries,
        Summary.print_test_summary ctx
        = (k, [Pprint "CYAN" "Test Summary";
               Pprint "CYAN" ("  tests that pass " +:+ fmt_d (N - k) +:+ "/" +:+ fmt_d N)]
              ++ pass_entries
              ++ [Pprint "CYAN" ("  tests that fail " +:+ fmt_d k +:+ "/" +:+ fmt_d N)]
              ++ fail_entries)
        ∧ pass_entries
          ≡ₚ flat_map (Summary.print_pass (show_test_out (ctx_options ctx))) passing
        ∧ fail_entries ≡ₚ flat_map Summary.print_fail failing)
  ∧ (∀ ctx' : build_context,
        getattr_utest_results ctx' ≡ₚ getattr_utest_results ctx →
        show_test_out (ctx_options ctx') = show_test_out (ctx_options ctx) →
        fst (Summary.print_test_summary ctx') = fst (Summary.print_test_summary ctx)
        ∧ snd (Summary.print_test_summary ctx') ≡ₚ snd (Summary.print_test_summary ctx)
        ∧ firstn 2 (snd (Summary.print_test_summary ctx'))
          = firstn 2 (snd (Summary.print_test_summary ctx))).
Proof.
  intros Hperm Hp Hf N k.
  destruct (count_failed_split _ _ _ Hperm Hp Hf) as [Hlen Hcnt].
  split; [subst N k; lia|]. split.
  - exists (flat_map (Summary.print_pass (show_test_out (ctx_options ctx)))
                     (getattr_utest_results ctx)),
           (flat_map Summary.print_fail (getattr_utest_results ctx)).
    split; [|split].
    + unfold Summary.print_test_summary, Summary.pass_line, Summary.fail_line.
      rewrite Hlen, Hcnt. reflexivity.
    + rewrite (Permutation_flat_map _ Hperm), flat_map_app.
      rewrite (print_pass_failing _ _ Hf), app_nil_r. reflexivity.
    + rewrite (Permutation_flat_map _ Hperm), flat_map_app.
      rewrite (print_fail_passing _ Hp). reflexivity.
  - intros ctx' Hperm' Hshow.
    assert (Hperm2 : getattr_utest_results ctx' ≡ₚ passing ++ failing)
      by (etransitivity; eassumption).
    destruct (count_failed_split _ _ _ Hperm2 Hp Hf) as [Hlen' Hcnt'].
    unfold Summary.print_test_summary. cbn [fst snd].
    rewrite Hlen, Hcnt, Hlen', Hcnt', Hshow.
    split; [reflexivity|]. split; [|reflexivity].
    do 2 apply perm_skip.
    apply Permutation_app; [now apply Permutation_flat_map|].
    apply perm_skip. now apply Permutation_flat_map.
Qed.

(** The end-to-end scenario of three tests, appended in the order b, c, a:
    2/3 pass, 1/3 fail, the summary returns 1. *)
Lemma print_test_summary_counts_witness :
  ∃ pass_entries fail_entries,
    Summary.print_test_summary
      (Samples.ctx_of (Some [Samples.r_b; Samples.r_c; Samples.r_a]) false)
    = (1, [Pprint "CYAN" "Test Summary"; Pprint "CYAN" "  tests that pass 2/3"]
          ++ pass_entries
          ++ [Pprint "CYAN" "  tests that fail 1/3"]
          ++ fail_entries).
Proof.
  destruct (print_test_summary_counts
              (Samples.ctx_of (Some [Samples.r_b; Samples.r_c; Samples.r_a]) false)
              [Samples.r_c; Samples.r_a] [Samples.r_b])
    as (_ & (pe & fe & Heq & _) & _).
  - cbn. etransitivity; [apply perm_swap|apply perm_skip, perm_swap].
  - repeat constructor.
  - repeat constructor. discriminate.
  - exists pe, fe. exact Heq.
Defined.

(** C9. With no recorded result the summary is still printed, with 0/0
    passing and 0/0 failing, and returns 0; the post-build function then
    reports that all tests passed and, coverage not being enabled, does not
    raise the fatal error. *)
Theorem no_results_summary `{Host} (ctx : build_context) (w : world) :
  getattr_utest_results ctx = [] →
  env_with_coverage ctx = false →
  Summary.print_test_summary ctx
  = (0, [ Pprint "CYAN" "Test Summary";
          Pprint "CYAN" "  tests that pass 0/0";
          Pprint "CYAN" "  tests that fail 0/0" ])
  ∧ PostBuild.o_console (PostBuild.post_build_fun ctx w)
    = [ Pprint "CYAN" "Test Summary";
        Pprint "CYAN" "  tests that pass 0/0";
        Pprint "CYAN" "  tests that fail 0/0";
        Info "All tests passed." ]
  ∧ PostBuild.o_fatal (PostBuild.post_build_fun ctx w) = None.
Proof.
  intros Hnone Hcov.
  assert (Hsum : Summary.print_test_summary ctx
                 = (0, [ Pprint "CYAN" "Test Summary";
                         Pprint "CYAN" "  tests that pass 0/0";
                         Pprint "CYAN" "  tests that fail 0/0" ])).
  { unfold Summary.print_test_summary. rewrite Hnone. reflexivity. }
  split; [exact Hsum|].
  unfold PostBuild.post_build_fun. rewrite Hsum, Hcov. cbn. split; reflexivity.
Qed.

Lemma no_results_summary_witness :
  PostBuild.o_fatal
    (PostBuild.post_build_fun (H := Samples.scripted) (Samples.ctx_of None false) [])
  = None.
Proof.
  exact (proj2 (proj2 (no_results_summary (H := Samples.scripted)
                         (Samples.ctx_of None false) [] eq_refl eq_refl))).
Defined.

(** ** The coverage pipeline *)

Section PipelineFacts.
Context `{Host}.

(** The loop stops at the first step whose child returns a code other than
    0: it has started the steps up to that one and no other. *)
Lemma run_cmds_fail_fast (cwd : string) (cmds : list (list string * string)) :
  ∀ (k : nat) (cmd_len cmd_idx : Z) (p : Coverage.progress) e,
    Forall (λ e, e.2 = 0) (take k (Coverage.run_all cwd cmds (Coverage.p_world p))) →
    Coverage.run_all cwd cmds (Coverage.p_world p) !! k = Some e →
    e.2 ≠ 0 →
    let r := Coverage.run_cmds cwd cmd_len cmd_idx cmds p in
    r.1 = false
    ∧ Coverage.p_started r.2
      = Coverage.p_started p ++ take (S k) (map fst cmds)
    ∧ Coverage.p_logfile r.2
      = Coverage.p_logfile p
        ++ flat_map Coverage.log_section
             (take (S k) (Coverage.run_all cwd cmds (Coverage.p_world p))).
Proof.
  induction cmds as [|[cmd desc] cmds IH]; intros k cmd_len cmd_idx p e Hok Hk Hrc.
  - discriminate.
  - cbn in Hok, Hk |- *.
    destruct (popen_wait cmd cwd (Coverage.p_world p)) as [[out rc] w'] eqn:Hrun.
    destruct k as [|k].
    + cbn in Hk. injection Hk as <-. cbn in Hrc.
      destruct (Z.eqb_spec rc 0) as [|_]; [contradiction|]. cbn.
      unfold Coverage.log_section. cbn.
      rewrite take_0, app_nil_r, <- !app_assoc. auto.
    + cbn in Hk, Hok. apply Forall_cons in Hok as [Hrc0 Hok]. cbn in Hrc0.
      subst rc. cbn.
      specialize (IH k cmd_len (cmd_idx + 1)
                     (Coverage.Progress w'
                        (Coverage.p_console p
                         ++ [Info (Coverage.step_msg cmd_idx cmd_len desc)])
                        ((Coverage.p_logfile p ++ Coverage.banner cmd) ++ out)
                        (Coverage.p_started p ++ [cmd])) e Hok Hk Hrc).
      cbn in IH. destruct IH as (Hr & Hs & Hl).
      split; [exact Hr|]. split.
      * rewrite Hs, <- app_assoc. reflexivity.
      * rewrite Hl. unfold Coverage.banner.
        rewrite <- !app_assoc. reflexivity.
Qed.

(** When every child returns 0 the loop starts all the steps and succeeds. *)
Lemma run_cmds_all_ok (cwd : string) (cmds : list (list string * string)) :
  ∀ (cmd_len cmd_idx : Z) (p : Coverage.progress),
    Forall (λ e, e.2 = 0) (Coverage.run_all cwd cmds (Coverage.p_world p)) →
    let r := Coverage.run_cmds cwd cmd_len cmd_idx cmds p in
    r.1 = true
    ∧ Coverage.p_started r.2 = Coverage.p_started p ++ map fst cmds.
Proof.
  induction cmds as [|[cmd desc] cmds IH]; intros cmd_len cmd_idx p Hok.
  - cbn. now rewrite app_nil_r.
  - cbn in Hok |- *.
    destruct (popen_wait cmd cwd (Coverage.p_world p)) as [[out rc] w'] eqn:Hrun.
    apply Forall_cons in Hok as [Hrc0 Hok]. cbn in Hrc0. subst rc. cbn.
    specialize (IH cmd_len (cmd_idx + 1)
                   (Coverage.Progress w'
                      (Coverage.p_console p
                       ++ [Info (Coverage.step_msg cmd_idx cmd_len desc)])
                      ((Coverage.p_logfile p ++ Coverage.banner cmd) ++ out)
                      (Coverage.p_started p ++ [cmd])) Hok).
    cbn in IH. destruct IH as (Hr & Hs).
    split; [exact Hr|]. rewrite Hs, <- app_assoc. reflexivity.
Qed.

Lemma cmd_descs_length (ctx : build_context) :
  length (Coverage.cmd_descs ctx) = 5%nat.
Proof. reflexivity. Qed.

Lemma run_all_length (cwd : string) (cmds : list (list string * string)) :
  ∀ w, length (Coverage.run_all cwd cmds w) = length cmds.
Proof.
  induction cmds as [|[cmd desc] cmds IH]; intros w; [reflexivity|].
  cbn. destruct (popen_wait cmd cwd w) as [[out rc] w']. cbn. now rewrite IH.
Qed.

End PipelineFacts.

(** C7. If the step at position [k] (counted from 0) of the five-step
    pipeline is the first whose child exits with a code other than 0, the
    generator returns failure, the commands it has started are the first
    [k + 1] of the five and no later one, and the log file consists of its
    header followed by one section (banner, then the child's output) for
    each started step and for no other.  For [k = 2], the combine step,
    three commands are started and the log has three sections. *)
Theorem coverage_pipeline_fail_fast `{Host} (ctx : build_context) (w : world)
    (k : nat) (e : list string * list string * Z) :
  let trace := Coverage.run_all (path_abspath ctx) (Coverage.cmd_descs ctx) w in
  Forall (λ e, e.2 = 0) (take k trace) →
  trace !! k = Some e →
  e.2 ≠ 0 →
  let r := Coverage.generate_coverage_report ctx w in
  r.1 = false
  ∧ Coverage.p_started r.2 = take (S k) (map fst (Coverage.cmd_descs ctx))
  ∧ length (Coverage.p_started r.2) = S k
  ∧ (∀ j, (k < j)%nat → Coverage.p_started r.2 !! j = None)
  ∧ Coverage.p_logfile r.2
    = Coverage.log_header ctx ++ flat_map Coverage.log_section (take (S k) trace)
  ∧ Pprint "CYAN" "Generated Report" ∉ Coverage.p_console r.2.
Proof.
  intros trace Hok Hk Hrc r.
  assert (Hlt : (k < 5)%nat).
  { apply lookup_lt_Some in Hk. subst trace.
    now rewrite run_all_length, cmd_descs_length in Hk. }
  pose (p0 := Coverage.Progress w
                [ Pprint "CYAN" "Generating Test Coverage Report";
                  Pprint "GREEN" ("  log file: "
                     +:+ os_path_join (bldnode_abspath ctx) "coverage.log") ]
                (Coverage.log_header ctx) []).
  pose proof (run_cmds_fail_fast (path_abspath ctx) (Coverage.cmd_descs ctx) k
                (Z.of_nat (length (Coverage.cmd_descs ctx))) 0 p0 e Hok Hk Hrc)
    as (Hr & Hs & Hl).
  subst r. unfold Coverage.generate_coverage_report. fold p0.
  destruct (Coverage.run_cmds _ _ _ _ p0) as [ok p] eqn:Hrun.
  cbn in Hr, Hs, Hl. subst ok. cbn.
  assert (Hstarted : Coverage.p_started p
                     = take (S k) (map fst (Coverage.cmd_descs ctx))) by exact Hs.
  assert (Hlen : length (Coverage.p_started p) = S k).
  { rewrite Hstarted, length_take, length_map, cmd_descs_length. lia. }
  repeat split.
  - exact Hstarted.
  - exact Hlen.
  - intros j Hj. apply lookup_ge_None. lia.
  - exact Hl.
  - (* the console holds the two opening lines and one [Info] per step *)
    clear - Hrun. revert Hrun. subst p0.
    generalize (Z.of_nat (length (Coverage.cmd_descs ctx))) 0.
    set (c0 := [_; _]).
    assert (Hc0 : Pprint "CYAN" "Generated Report" ∉ c0).
    { subst c0. intros Hin. repeat (apply elem_of_cons in Hin as [Hin|Hin];
        [discriminate Hin|]). inversion Hin. }
    revert Hc0. generalize c0 (Coverage.log_header ctx) (@nil (list string)) w.
    clear. generalize (Coverage.cmd_descs ctx) as cmds.
    induction cmds as [|[cmd desc] cmds IH];
      intros c lg st w Hc len idx Hrun.
    + discriminate Hrun.
    + cbn in Hrun.
      destruct (popen_wait cmd (path_abspath ctx) w) as [[out rc] w'].
      destruct (negb (rc =? 0)).
      * injection Hrun as <-. cbn.
        intros Hin. apply elem_of_app in Hin as [Hin|Hin]; [now apply Hc|].
        apply list_elem_of_singleton in Hin. discriminate Hin.
      * eapply IH; [|exact Hrun].
        intros Hin. apply elem_of_app in Hin as [Hin|Hin]; [now apply Hc|].
        apply list_elem_of_singleton in Hin. discriminate Hin.
Qed.

(** The combine step fails on a host whose third child returns 1: three
    commands are started and the generator returns failure. *)
Lemma coverage_pipeline_fail_fast_witness :
  let r := Coverage.generate_coverage_report (H := Samples.scripted)
             (Samples.ctx_of (Some [Samples.r_a; Samples.r_c]) true) [0; 0; 1] in
  r.1 = false ∧ length (Coverage.p_started r.2) = 3%nat.
Proof.
  pose proof (coverage_pipeline_fail_fast (H := Samples.scripted)
                (Samples.ctx_of (Some [Samples.r_a; Samples.r_c]) true) [0; 0; 1]
                2
                (["lcov"; "--gcov-tool"; "gcov"; "--no-checksum"; "-a";
                  "/b/_test_coverage/test_base.info"; "-a";
                  "/b/_test_coverage/test_run.info"; "-o";
                  "/b/_test_coverage/test_total.info"], ["done"], 1)) as Hw.
  cbn zeta in Hw.
  destruct Hw as (Hr & _ & Hlen & _).
  - repeat constructor.
  - vm_compute. reflexivity.
  - discriminate.
  - split; [exact Hr|exact Hlen].
Defined.

(** ** The post-build function *)

Section PostBuildFacts.
Context `{Host}.

(** The fatal error is raised exactly when the summary counts a failure. *)
Lemma post_build_fun_fatal (ctx : build_context) (w : world) :
  PostBuild.o_fatal (PostBuild.post_build_fun ctx w) ≠ None
  ↔ 0 < fst (Summary.print_test_summary ctx).
Proof.
  unfold PostBuild.post_build_fun.
  destruct (Summary.print_test_summary ctx) as [n console]. cbn [fst].
  destruct (Z.ltb_spec 0 n) as [Hn|Hn];
    destruct (env_with_coverage ctx);
    try destruct (Coverage.generate_coverage_report ctx w) as [ok p];
    cbn; split; intros Hf; try lia; try congruence.
Qed.

Lemma post_build_fun_error_msg (ctx : build_context) (w : world) :
  PostBuild.o_error_msg (PostBuild.post_build_fun ctx w)
  = if env_with_coverage ctx
    then tests_msg ctx +:+ nl +:+ "Failed to generate coverage report."
    else tests_msg ctx.
Proof.
  unfold PostBuild.post_build_fun, tests_msg.
  destruct (Summary.print_test_summary ctx) as [n console]. cbn [fst].
  destruct (0 <? n); destruct (env_with_coverage ctx);
    try destruct (Coverage.generate_coverage_report ctx w) as [ok p];
    reflexivity.
Qed.

Lemma post_build_fun_started (ctx : build_context) (w : world) :
  PostBuild.o_started (PostBuild.post_build_fun ctx w)
  = if env_with_coverage ctx
    then Coverage.p_started (Coverage.generate_coverage_report ctx w).2
    else [].
Proof.
  unfold PostBuild.post_build_fun.
  destruct (Summary.print_test_summary ctx) as [n console].
  destruct (0 <? n); destruct (env_with_coverage ctx);
    try destruct (Coverage.generate_coverage_report ctx w) as [ok p];
    reflexivity.
Qed.

End PostBuildFacts.

(** C2. With coverage enabled the post-build function runs the generator
    and then appends the line "Failed to generate coverage report." to its
    error message whatever the generator returned, success included. *)
Theorem coverage_failure_always_appended `{Host} (ctx : build_context) (w : world) :
  env_with_coverage ctx = true →
  PostBuild.o_started (PostBuild.post_build_fun ctx w)
  = Coverage.p_started (Coverage.generate_coverage_report ctx w).2
  ∧ ∀ generator_result : bool,
      (Coverage.generate_coverage_report ctx w).1 = generator_result →
      PostBuild.o_error_msg (PostBuild.post_build_fun ctx w)
      = tests_msg ctx +:+ nl +:+ "Failed to generate coverage report.".
Proof.
  intros Hcov. split.
  - rewrite post_build_fun_started, Hcov. reflexivity.
  - intros ok _. rewrite post_build_fun_error_msg, Hcov. reflexivity.
Qed.

(** All five steps succeed, the generator returns success, and the failure
    line is appended all the same. *)
Lemma coverage_failure_always_appended_witness :
  (Coverage.generate_coverage_report (H := Samples.scripted)
     (Samples.ctx_of (Some [Samples.r_a; Samples.r_c]) true) []).1 = true
  ∧ PostBuild.o_error_msg
      (PostBuild.post_build_fun (H := Samples.scripted)
         (Samples.ctx_of (Some [Samples.r_a; Samples.r_c]) true) [])
    = nl +:+ "Failed to generate coverage report.".
Proof.
  split; [vm_compute; reflexivity|].
  exact (proj2 (coverage_failure_always_appended (H := Samples.scripted)
                  (Samples.ctx_of (Some [Samples.r_a; Samples.r_c]) true) []
                  eq_refl) true ltac:(vm_compute; reflexivity)).
Defined.

(** C1, on the code: two tests pass, coverage is enabled and the first
    step of the pipeline fails, so the generator returns failure; the
    post-build function does not raise the fatal error. *)
Theorem coverage_failure_not_fatal :
  let ctx := Samples.ctx_of (Some [Samples.r_a; Samples.r_c]) true in
  fst (Summary.print_test_summary ctx) = 0
  ∧ (Coverage.generate_coverage_report (H := Samples.scripted) ctx [1]).1 = false
  ∧ PostBuild.o_fatal (PostBuild.post_build_fun (H := Samples.scripted) ctx [1])
    = None
  ∧ PostBuild.o_is_success
      (PostBuild.post_build_fun (H := Samples.scripted) ctx [1]) = true.
Proof. vm_compute. repeat split; reflexivity. Qed.

(** ** The environment of the test process *)

Lemma foldl_visit (tgs : list task_gen) :
  ∀ acc, foldl Env.visit acc tgs
         = foldl add_dir acc
             (omap (λ tg, (λ lt, parent_abspath (output0 lt)) <$> link_task tg) tgs).
Proof.
  induction tgs as [|tg tgs IH]; intros acc; [reflexivity|].
  cbn. unfold Env.visit at 2. destruct (link_task tg) as [lt|]; cbn; apply IH.
Qed.

Lemma foldl_groups (gs : list (list task_gen)) :
  ∀ acc, foldl (λ lst g, foldl Env.visit lst g) acc gs
         = foldl Env.visit acc (concat gs).
Proof.
  induction gs as [|g gs IH]; intros acc; [reflexivity|].
  cbn. rewrite foldl_app. apply IH.
Qed.

Lemma foldl_add_dir (l : list string) :
  ∀ acc, foldl add_dir acc l
         = acc ++ filter (λ y, y ∉ acc) (Env.dedup_first l).
Proof.
  induction l as [|x l IH]; intros acc.
  - cbn. now rewrite app_nil_r.
  - cbn [foldl Env.dedup_first]. rewrite IH. unfold add_dir.
    destruct (bool_decide_reflect (x ∈ acc)) as [Hin|Hnin].
    + rewrite filter_cons_False by (intros Hx; now apply Hx).
      rewrite list_filter_filter. f_equal. apply list_filter_iff.
      intros y. split; [|intros [Hy _]; exact Hy].
      intros Hy. split; [exact Hy|]. intros ->. contradiction.
    + rewrite filter_cons_True by exact Hnin.
      rewrite list_filter_filter, <- app_assoc. cbn. do 2 f_equal.
      apply list_filter_iff. intros y.
      rewrite elem_of_app, list_elem_of_singleton. tauto.
  Qed.

(** The loops compute the link directories in the order they are met, each
    directory at its first occurrence only. *)
Lemma link_dirs_dedup_first (gs : list (list task_gen)) :
  Env.link_dirs gs = Env.dedup_first (Env.all_link_dirs gs).
Proof.
  unfold Env.link_dirs, Env.all_link_dirs.
  rewrite foldl_groups, foldl_visit, foldl_add_dir. cbn.
  generalize (Env.dedup_first
                (omap (λ tg, (λ lt, parent_abspath (output0 lt)) <$> link_task tg)
                      (concat gs))).
  induction l as [|y l IH]; [reflexivity|].
  rewrite filter_cons_True by apply not_elem_of_nil. now rewrite IH.
Qed.

Lemma dedup_first_elem_of (l : list string) (x : string) :
  x ∈ Env.dedup_first l ↔ x ∈ l.
Proof.
  induction l as [|y l IH]; [reflexivity|].
  cbn. rewrite !elem_of_cons, list_elem_of_filter, IH.
  destruct (decide (x = y)); tauto.
Qed.

Lemma dedup_first_NoDup (l : list string) : NoDup (Env.dedup_first l).
Proof.
  induction l as [|y l IH]; cbn; [constructor|].
  constructor.
  - rewrite list_elem_of_filter. tauto.
  - now apply NoDup_filter.
Qed.

Lemma dedup_first_sublist (l : list string) : sublist (Env.dedup_first l) l.
Proof.
  induction l as [|y l IH]; cbn; [constructor|].
  constructor. etransitivity; [apply sublist_filter|exact IH].
Qed.

Lemma add_path_lookup (os : os_t) (dct : gmap string string)
    (path : list string) (var var' : string) :
  Env.add_path os dct path var !! var'
  = if decide (var = var')
    then Some (String.concat (pathsep os)
                 (path ++ [default EmptyString (environ os !! var)]))
    else dct !! var'.
Proof. unfold Env.add_path. apply lookup_insert. Qed.

Lemma append_assoc (a b c : string) : (a +:+ b) +:+ c = a +:+ (b +:+ c).
Proof.
  induction a as [|x a IH]; [reflexivity|].
  rewrite !append_cons. now rewrite IH.
Qed.

(** Joining a non-empty list followed by one more entry puts the joined list,
    then the separator, in front of that entry. *)
Lemma concat_snoc (sep v : string) (l : list string) :
  l ≠ [] →
  String.concat sep (l ++ [v]) = String.concat sep l +:+ sep +:+ v.
Proof.
  induction l as [|x l IH]; [congruence|]. intros _.
  destruct l as [|y l].
  - reflexivity.
  - change (String.concat sep ((x :: y :: l) ++ [v]))
      with (x +:+ sep +:+ String.concat sep ((y :: l) ++ [v])).
    rewrite IH by discriminate.
    change (String.concat sep (x :: y :: l))
      with (x +:+ sep +:+ String.concat sep (y :: l)).
    now rewrite !append_assoc.
Qed.

(** C6. On the first call the resolver starts from the ambient environment
    and, for each search-path variable of the platform ([PATH] on Windows,
    [DYLD_LIBRARY_PATH] and [LD_LIBRARY_PATH] on macOS, [LD_LIBRARY_PATH]
    elsewhere), joins with the path separator the link-output directories of
    the whole build graph, in the order they are met and without duplicates,
    followed by the ambient value of the variable; every other variable
    keeps its ambient value.  The result is stored on the build context, so
    a second resolution returns the same environment. *)
Theorem resolve_environment (os : os_t) (bld : build_context) :
  all_test_paths bld = None →
  let lst := Env.link_dirs (groups bld) in
  let r := Env.resolve os bld in
  lst = Env.dedup_first (Env.all_link_dirs (groups bld))
  ∧ NoDup lst
  ∧ sublist lst (Env.all_link_dirs (groups bld))
  ∧ (∀ d, d ∈ lst ↔ d ∈ Env.all_link_dirs (groups bld))
  ∧ (∀ var, var ∈ Env.search_path_vars os →
       r.1 !! var
       = Some (String.concat (pathsep os)
                 (lst ++ [default EmptyString (environ os !! var)]))
       ∧ (lst ≠ [] →
          r.1 !! var
          = Some (String.concat (pathsep os) lst +:+ pathsep os
                  +:+ default EmptyString (environ os !! var))))
  ∧ (∀ var, var ∉ Env.search_path_vars os → r.1 !! var = environ os !! var)
  ∧ groups r.2 = groups bld
  ∧ Env.resolve os r.2 = r.
Proof.
  intros Hnone lst r.
  assert (Hlst : lst = Env.dedup_first (Env.all_link_dirs (groups bld)))
    by apply link_dirs_dedup_first.
  split; [exact Hlst|].
  split; [rewrite Hlst; apply dedup_first_NoDup|].
  split; [rewrite Hlst; apply dedup_first_sublist|].
  split; [intros d; rewrite Hlst; apply dedup_first_elem_of|].
  assert (Hr : r = (Env.compute_paths os bld,
                    set_all_test_paths (Env.compute_paths os bld) bld)).
  { subst r. unfold Env.resolve. now rewrite Hnone. }
  assert (Hlookup : ∀ var,
             Env.compute_paths os bld !! var
             = if bool_decide (var ∈ Env.search_path_vars os)
               then Some (String.concat (pathsep os)
                            (lst ++ [default EmptyString (environ os !! var)]))
               else environ os !! var).
  { intros var. unfold Env.compute_paths, Env.search_path_vars. fold lst.
    destruct (is_win32 os);
      [|destruct (String.eqb (unversioned_sys_platform os) "darwin")];
      rewrite ?add_path_lookup;
      repeat case_decide; subst;
      repeat (case_bool_decide as Hin); try reflexivity;
      exfalso; rewrite ?elem_of_cons, ?elem_of_nil in Hin;
      try (apply Hin; tauto);
      intuition congruence. }
  rewrite Hr. cbn [fst snd]. repeat split.
  - rewrite Hlookup. now rewrite bool_decide_eq_true_2.
  - intros Hne. rewrite Hlookup, bool_decide_eq_true_2 by assumption.
    now rewrite concat_snoc.
  - intros var Hvar. rewrite Hlookup. now rewrite bool_decide_eq_false_2.
Qed.

(** On a Linux host with [LD_LIBRARY_PATH=/usr/lib] and link outputs in
    [/b/g], [/b/h] and [/b/g] again. *)
Lemma resolve_environment_witness :
  (Env.resolve Samples.linux Samples.bld_graph).1 !! "LD_LIBRARY_PATH"
  = Some "/b/g:/b/h:/usr/lib".
Proof.
  pose proof (resolve_environment Samples.linux Samples.bld_graph eq_refl)
    as (_ & _ & _ & _ & Hvar & _).
  destruct (Hvar "LD_LIBRARY_PATH") as [Heq _].
  - vm_compute. apply list_elem_of_here.
  - rewrite Heq. vm_compute. reflexivity.
Defined.

(** ** Recording results from concurrent workers *)

Section AggregatorFacts.
Import Aggregator.

Lemma pending_app (l1 l2 : list worker) (w : worker) :
  concat (map pending_of (l1 ++ w :: l2))
  = concat (map pending_of l1) ++ pending_of w ++ concat (map pending_of l2).
Proof. now rewrite map_app, concat_app. Qed.

Lemma cs_count_app (l1 l2 : list worker) (w : worker) :
  cs_count (l1 ++ w :: l2)
  = (cs_count l1 + (if in_cs w then 1 else 0) + cs_count l2)%nat.
Proof.
  unfold cs_count. rewrite List.filter_app, length_app. cbn.
  destruct (in_cs w); cbn; lia.
Qed.

Lemma cs_count_0 (l : list worker) (w : worker) :
  cs_count l = 0%nat → w ∈ l → in_cs w = false.
Proof.
  unfold cs_count. intros Hc Hin. apply list_elem_of_In in Hin.
  destruct (in_cs w) eqn:Hw; [|reflexivity].
  assert (Hf : In w (List.filter in_cs l)) by (apply List.filter_In; auto).
  destruct (List.filter in_cs l); [destruct Hf|discriminate].
Qed.

Lemma cs_count_pos (l : list worker) :
  (0 < cs_count l)%nat → ∃ w, w ∈ l ∧ in_cs w = true.
Proof.
  unfold cs_count. intros Hc.
  destruct (List.filter in_cs l) as [|w f] eqn:Hf; [cbn in Hc; lia|].
  assert (Hin : In w (List.filter in_cs l)) by (rewrite Hf; now left).
  apply List.filter_In in Hin as [Hin Hw].
  exists w. split; [now apply list_elem_of_In|exact Hw].
Qed.

Lemma remaining_app (l1 l2 : list worker) (w : worker) :
  list_sum (map remaining (l1 ++ w :: l2))
  = (list_sum (map remaining l1) + remaining w + list_sum (map remaining l2))%nat.
Proof.
  rewrite map_app, list_sum_app.
  change (list_sum (map remaining (w :: l2)))
    with (remaining w + list_sum (map remaining l2))%nat.
  lia.
Qed.

(** The state after a statement of the worker at position [i]. *)
Lemma step_unfold (i : nat) (s : state) (w w' : worker)
    (lk : bool) (res : option (list tup)) :
  workers s !! i = Some w →
  step_worker (locked s) (results s) w = Some (lk, res, w') →
  workers s = take i (workers s) ++ w :: drop (S i) (workers s)
  ∧ step i s = State lk res (take i (workers s) ++ w' :: drop (S i) (workers s)).
Proof.
  intros Hi Hw. split.
  - symmetry. now apply take_drop_middle.
  - unfold step. rewrite Hi, Hw. f_equal.
    apply insert_take_drop. now apply lookup_lt_Some in Hi.
Qed.

Lemma step_at (i : nat) (lk : bool) (res : option (list tup))
    (ws : list worker) (w : worker) :
  (i < length ws)%nat →
  step i (State lk res (<[i := w]> ws))
  = match step_worker lk res w with
    | Some (lk', res', w') => State lk' res' (<[i := w']> ws)
    | None => State lk res (<[i := w]> ws)
    end.
Proof.
  intros Hi. unfold step. cbn.
  rewrite list_lookup_insert_eq by exact Hi.
  destruct (step_worker lk res w) as [[[lk' res'] w']|]; [|reflexivity].
  now rewrite list_insert_insert_eq.
Qed.

(** A worker that executes the statements of one call without another
    worker moving in between does what [append_result] does: three
    statements when the list exists, four when the attribute has to be
    created. *)
Lemma solo_worker_appends (s : state) (i : nat) (x : tup) (rest : list tup)
    (bld : build_context) :
  locked s = false →
  workers s !! i = Some (Worker (x :: rest) AtAcquire) →
  results s = utest_results bld →
  run_schedule
    (replicate (match results s with Some _ => 3 | None => 4 end)%nat i) s
  = State false (utest_results (append_result x bld))
          (<[i := Worker rest AtAcquire]> (workers s)).
Proof.
  destruct s as [lk res ws]. cbn. intros -> Hi ->.
  assert (Hlen : (i < length ws)%nat) by now apply lookup_lt_Some in Hi.
  assert (H1 : step i (State false (utest_results bld) ws)
               = State true (utest_results bld)
                       (<[i := Worker (x :: rest) AtAppend]> ws)).
  { unfold step. cbn. rewrite Hi. reflexivity. }
  unfold append_result.
  destruct (utest_results bld) as [l|]; cbn; rewrite H1;
    repeat (rewrite step_at by exact Hlen; cbn); reflexivity.
Qed.

Lemma inv_init (qs : list (list tup)) : inv (concat qs) (init qs).
Proof.
  split; cbn.
  - rewrite map_map. cbn. now rewrite map_id.
  - unfold cs_count. induction qs as [|q qs IH]; [reflexivity|exact IH].
  - intros w Hw Hpc. apply list_elem_of_fmap in Hw as (q & -> & _). discriminate.
  - intros w Hw Hcs. apply list_elem_of_fmap in Hw as (q & -> & _). discriminate.
Qed.

Lemma elem_of_replaced (l1 l2 : list worker) (w w' w0 : worker) :
  w0 ∈ l1 ++ w' :: l2 →
  w0 = w' ∨ (w0 ∈ l1 ++ w :: l2 ∧ w0 ∈ l1 ++ l2).
Proof.
  rewrite !elem_of_app, !elem_of_cons. tauto.
Qed.

(** A property of the workers that the moving worker does not break is
    kept by the others. *)
Ltac others_keep old H :=
  let w0 := fresh "w0" in
  let Hw0 := fresh "Hw0" in
  let Hw0' := fresh "Hw0'" in
  let Hp := fresh "Hp" in
  intros w0 Hw0 Hp;
  apply (elem_of_replaced _ _ old) in Hw0 as [->|[Hw0 Hw0']];
  [try discriminate | try (eapply H; eassumption)].

(** Every statement of every worker keeps the invariant. *)
Lemma inv_step (all : list tup) (i : nat) (s : state) :
  inv all s → inv all (step i s).
Proof.
  intros [Hperm Hlock Hassign Hqueue].
  destruct (workers s !! i) as [w|] eqn:Hi;
    [|unfold step; rewrite Hi; now split].
  destruct (step_worker (locked s) (results s) w) as [[[lk res] w']|] eqn:Hw;
    [|unfold step; rewrite Hi, Hw; now split].
  destruct (step_unfold i s w w' lk res Hi Hw) as [Hws ->].
  set (l1 := take i (workers s)) in *. set (l2 := drop (S i) (workers s)) in *.
  clearbody l1 l2. clear Hi.
  rewrite Hws in Hperm, Hlock, Hassign, Hqueue.
  rewrite pending_app in Hperm. rewrite cs_count_app in Hlock.
  assert (Hothers : in_cs w = true → ∀ w0, w0 ∈ l1 ++ l2 → in_cs w0 = false).
  { intros Hcs w0 Hw0. rewrite Hcs in Hlock.
    apply elem_of_app in Hw0 as [Hw0|Hw0];
      (eapply cs_count_0; [|exact Hw0]); destruct (locked s); lia. }
  assert (Hnoassign : in_cs w = true → ∀ w0, w0 ∈ l1 ++ l2 → at_pc w0 ≠ AtAssign).
  { intros Hcs w0 Hw0 Hpc. specialize (Hothers Hcs w0 Hw0).
    unfold in_cs in Hothers. now rewrite Hpc in Hothers. }
  unfold step_worker in Hw.
  destruct w as [q pc]. cbn in Hw. destruct q as [|x rest]; [discriminate|].
  destruct pc.
  - (* acquire *)
    destruct (locked s) eqn:Hlk; [discriminate|]. injection Hw as <- <- <-.
    split; cbn -[cs_count].
    + now rewrite pending_app.
    + rewrite cs_count_app. cbn in Hlock |- *. lia.
    + others_keep (Worker (x :: rest) AtAcquire) Hassign.
    + others_keep (Worker (x :: rest) AtAcquire) Hqueue.
  - (* append *)
    destruct (results s) as [l|] eqn:Hres; injection Hw as <- <- <-.
    + split; cbn -[cs_count].
      * rewrite pending_app. cbn in Hperm |- *. rewrite <- Hperm.
        rewrite <- !app_assoc. apply Permutation_app_head. cbn.
        apply Permutation_middle.
      * rewrite cs_count_app. exact Hlock.
      * others_keep (Worker (x :: rest) AtAppend) Hassign.
        exfalso. now apply (Hnoassign eq_refl w0).
      * others_keep (Worker (x :: rest) AtAppend) Hqueue.
    + split; cbn -[cs_count].
      * rewrite pending_app. exact Hperm.
      * rewrite cs_count_app. exact Hlock.
      * reflexivity.
      * others_keep (Worker (x :: rest) AtAppend) Hqueue.
  - (* assign *)
    assert (Hres : results s = None).
    { apply (Hassign (Worker (x :: rest) AtAssign)); [|reflexivity].
      apply elem_of_app. right. now left. }
    injection Hw as <- <- <-.
    split; cbn -[cs_count].
    + rewrite pending_app. rewrite Hres in Hperm. cbn in Hperm |- *.
      rewrite <- Hperm. apply Permutation_middle.
    + rewrite cs_count_app. exact Hlock.
    + others_keep (Worker (x :: rest) AtAssign) Hassign.
      exfalso. now apply (Hnoassign eq_refl w0).
    + others_keep (Worker (x :: rest) AtAssign) Hqueue.
  - (* release *)
    injection Hw as <- <- <-.
    split; cbn -[cs_count].
    + rewrite pending_app. exact Hperm.
    + rewrite cs_count_app. cbn in Hlock |- *. destruct (locked s); lia.
    + others_keep (Worker (x :: rest) AtRelease) Hassign.
    + others_keep (Worker (x :: rest) AtRelease) Hqueue.
Qed.

Lemma inv_run_schedule (all : list tup) (sched : list nat) :
  ∀ s, inv all s → inv all (run_schedule sched s).
Proof.
  induction sched as [|i sched IH]; intros s Hs; [exact Hs|].
  cbn. apply IH. now apply inv_step.
Qed.

Lemma finished_pending (ws : list worker) :
  Forall (λ w, queue w = []) ws → concat (map pending_of ws) = [].
Proof.
  induction 1 as [|w ws Hw _ IH]; [reflexivity|].
  cbn. rewrite IH, app_nil_r. unfold pending_of. rewrite Hw.
  now destruct (at_pc w).
Qed.

(** Once every worker is done, the recorded results are the tuples handed
    to the workers, each one once, and the lock is free. *)
Lemma inv_finished (all : list tup) (s : state) :
  inv all s → finished s →
  default [] (results s) ≡ₚ all ∧ locked s = false.
Proof.
  intros [Hperm Hlock _ Hqueue] Hfin. split.
  - rewrite finished_pending, app_nil_r in Hperm by exact Hfin. exact Hperm.
  - destruct (locked s); [|reflexivity].
    destruct (cs_count_pos (workers s)) as (w & Hw & Hcs); [lia|].
    exfalso. apply (Hqueue w Hw Hcs).
    unfold finished in Hfin. rewrite Forall_forall in Hfin. now apply Hfin.
Qed.

(** A statement that is executed brings its worker closer to the end. *)
Lemma step_worker_remaining (lk lk' : bool) (res res' : option (list tup))
    (w w' : worker) :
  step_worker lk res w = Some (lk', res', w') →
  (remaining w' < remaining w)%nat.
Proof.
  unfold step_worker, remaining. destruct w as [[|x q] pc]; [discriminate|].
  cbn. destruct pc, lk, res; intros Hw; try discriminate;
    injection Hw as <- <- <-; cbn; lia.
Qed.

Lemma step_total_remaining (i : nat) (s : state) (w w' : worker)
    (lk : bool) (res : option (list tup)) :
  workers s !! i = Some w →
  step_worker (locked s) (results s) w = Some (lk, res, w') →
  (total_remaining (step i s) < total_remaining s)%nat.
Proof.
  intros Hi Hw. destruct (step_unfold i s w w' lk res Hi Hw) as [Hws ->].
  unfold total_remaining. cbn [workers]. rewrite Hws at 3.
  rewrite !remaining_app.
  pose proof (step_worker_remaining _ _ _ _ _ _ Hw). lia.
Qed.

Lemma remaining_pos (ws : list worker) :
  (0 < list_sum (map remaining ws))%nat →
  ∃ w, w ∈ ws ∧ queue w ≠ [].
Proof.
  induction ws as [|w ws IH]; [cbn; lia|]. intros Hpos.
  change (list_sum (map remaining (w :: ws)))
    with (remaining w + list_sum (map remaining ws))%nat in Hpos.
  destruct (queue w) as [|x q] eqn:Hq.
  - destruct IH as (w0 & Hw0 & Hq0).
    + unfold remaining at 1 in Hpos. rewrite Hq in Hpos. cbn in Hpos. lia.
    + exists w0. split; [now right|exact Hq0].
  - exists w. split; [left|]. now rewrite Hq.
Qed.

Lemma remaining_0 (ws : list worker) :
  list_sum (map remaining ws) = 0%nat → Forall (λ w, queue w = []) ws.
Proof.
  induction ws as [|w ws IH]; [constructor|]. intros H0.
  change (list_sum (map remaining (w :: ws)))
    with (remaining w + list_sum (map remaining ws))%nat in H0.
  constructor; [|apply IH; lia].
  unfold remaining in H0. destruct (queue w); [reflexivity|].
  cbn [length] in H0. destruct (at_pc w); lia.
Qed.

(** While some worker is not done, some worker can execute a statement: the
    lock does not block the workers for ever. *)
Lemma progress (all : list tup) (s : state) :
  inv all s → (0 < total_remaining s)%nat →
  ∃ i, (total_remaining (step i s) < total_remaining s)%nat.
Proof.
  intros [_ Hlock _ Hqueue] Hpos.
  destruct (locked s) eqn:Hlk.
  - destruct (cs_count_pos (workers s)) as (w & Hw & Hcs); [lia|].
    pose proof (Hqueue w Hw Hcs) as Hq.
    apply list_elem_of_lookup in Hw as [i Hi]. exists i.
    destruct w as [[|x q] pc]; [now contradict Hq|].
    destruct pc; [discriminate Hcs| | |].
    + destruct (results s) as [l|] eqn:Hres.
      * eapply step_total_remaining; [exact Hi|].
        unfold step_worker. cbn. rewrite Hres. reflexivity.
      * eapply step_total_remaining; [exact Hi|].
        unfold step_worker. cbn. rewrite Hres. reflexivity.
    + eapply step_total_remaining; [exact Hi|]. reflexivity.
    + eapply step_total_remaining; [exact Hi|]. reflexivity.
  - destruct (remaining_pos (workers s) Hpos) as (w & Hw & Hq).
    pose proof (cs_count_0 _ w Hlock Hw) as Hcs.
    apply list_elem_of_lookup in Hw as [i Hi]. exists i.
    destruct w as [[|x q] pc]; [now contradict Hq|].
    destruct pc; try discriminate Hcs.
    eapply step_total_remaining; [exact Hi|].
    unfold step_worker. cbn. rewrite Hlk. reflexivity.
Qed.

(** From every state the workers reach, the scheduler can let them finish. *)
Lemma can_finish (all : list tup) (n : nat) :
  ∀ s, (total_remaining s <= n)%nat → inv all s →
       ∃ sched, finished (run_schedule sched s).
Proof.
  induction n as [|n IH]; intros s Hn Hs.
  - exists []. cbn. apply remaining_0. unfold total_remaining in Hn. lia.
  - destruct (Nat.eq_dec (total_remaining s) 0%nat) as [H0|Hpos].
    + exists []. cbn. now apply remaining_0.
    + destruct (progress all s Hs) as [i Hi]; [lia|].
      destruct (IH (step i s)) as [sched Hfin];
        [lia|now apply inv_step|].
      exists (i :: sched). exact Hfin.
Qed.

End AggregatorFacts.

(** C8. Workers, two or more, record their results under the lock.  In
    every interleaving of their statements, once all of them are done the
    size of the result list is the number of appends, the list holding each
    appended tuple exactly once; and every interleaving can be continued
    until all of them are done. *)
Theorem concurrent_appends_recorded (qs : list (list tup)) (sched : list nat) :
  (2 <= length qs)%nat →
  let s := Aggregator.run_schedule sched (Aggregator.init qs) in
  (Aggregator.finished s →
     Aggregator.size s = length (concat qs)
     ∧ default [] (Aggregator.results s) ≡ₚ concat qs)
  ∧ ∃ sched',
      Aggregator.finished
        (Aggregator.run_schedule (sched ++ sched') (Aggregator.init qs)).
Proof.
  intros _ s.
  assert (Hinv : Aggregator.inv (concat qs) s)
    by (apply inv_run_schedule, inv_init).
  split.
  - intros Hfin. destruct (inv_finished _ _ Hinv Hfin) as [Hperm _].
    split; [|exact Hperm].
    unfold Aggregator.size. now rewrite (Permutation_length Hperm).
  - destruct (can_finish (concat qs) (Aggregator.total_remaining s) s
                (le_n _) Hinv) as [sched' Hfin].
    exists sched'. unfold Aggregator.run_schedule. rewrite foldl_app.
    exact Hfin.
Qed.

(** Two workers, the first with two results to record and the second with
    one; the second tries to take the lock while the first holds it. *)
Lemma concurrent_appends_recorded_witness :
  Aggregator.size
    (Aggregator.run_schedule [0; 1; 0; 0; 1; 0; 1; 0; 1; 1; 0; 0; 0]%nat
       (Aggregator.init [[Samples.r_a; Samples.r_b]; [Samples.r_c]]))
  = 3%nat.
Proof.
  refine (proj1 (proj1 (concurrent_appends_recorded
                   [[Samples.r_a; Samples.r_b]; [Samples.r_c]]
                   [0; 1; 0; 0; 1; 0; 1; 0; 1; 1; 0; 0; 0]%nat _) _)).
  - cbn. lia.
  - repeat constructor.
Defined.

(* ===================================================================== *)
(** * Part III: further properties of the module *)
(* ===================================================================== *)

(** ** The verdict of the post-build function *)

Lemma filter_failed_nil (lst : list tup) :
  List.filter Summary.failed lst = [] ↔ Forall (λ x, t_code x = 0) lst.
Proof.
  induction lst as [|x lst IH]; cbn.
  - split; [constructor|reflexivity].
  - unfold Summary.failed at 1.
    destruct (Z.eqb_spec (t_code x) 0) as [E|E]; cbn.
    + rewrite IH. split; [now constructor|]. intros HF.
      now apply Forall_cons in HF as [_ HF].
    + split; [discriminate|]. intros HF.
      apply Forall_cons in HF as [HF _]. contradiction.
Qed.

Lemma failures_zero (ctx : build_context) :
  fst (Summary.print_test_summary ctx) = 0
  ↔ Forall (λ x, t_code x = 0) (getattr_utest_results ctx).
Proof.
  unfold Summary.print_test_summary. cbn [fst].
  rewrite <- filter_failed_nil.
  destruct (List.filter Summary.failed (getattr_utest_results ctx)); cbn.
  - tauto.
  - split; [lia|discriminate].
Qed.

Lemma failures_nonneg (ctx : build_context) :
  0 <= fst (Summary.print_test_summary ctx).
Proof. unfold Summary.print_test_summary. cbn [fst]. lia. Qed.

(** X1. The post-build function ends normally when every recorded result
    has exit code 0, whether or not coverage is enabled.  When some recorded
    result has another exit code it raises the fatal error, whose message
    is "Some tests have failed.", then, if coverage is enabled, a new line
    and "Failed to generate coverage report.", then the build timer in
    parentheses. *)
Theorem post_build_fun_verdict `{Host} (ctx : build_context) (w : world) :
  (Forall (λ x, t_code x = 0) (getattr_utest_results ctx) →
     PostBuild.o_fatal (PostBuild.post_build_fun ctx w) = None)
  ∧ (Exists (λ x, t_code x ≠ 0) (getattr_utest_results ctx) →
     PostBuild.o_fatal (PostBuild.post_build_fun ctx w)
     = Some ("Some tests have failed."
             +:+ (if env_with_coverage ctx
                  then nl +:+ "Failed to generate coverage report."
                  else EmptyString)
             +:+ " (" +:+ log_timer ctx +:+ ")")).
Proof.
  split.
  - intros Hall. apply failures_zero in Hall.
    unfold PostBuild.post_build_fun.
    destruct (Summary.print_test_summary ctx) as [n console]. cbn in Hall.
    subst n. cbn.
    destruct (env_with_coverage ctx);
      [destruct (Coverage.generate_coverage_report ctx w)|]; reflexivity.
  - intros Hex.
    assert (Hpos : 0 < fst (Summary.print_test_summary ctx)).
    { pose proof (failures_nonneg ctx).
      destruct (Z.eq_dec (fst (Summary.print_test_summary ctx)) 0) as [E|E];
        [|lia].
      apply failures_zero in E. apply Exists_exists in Hex as (x & Hx & Hc).
      rewrite Forall_forall in E. now specialize (E x Hx). }
    unfold PostBuild.post_build_fun.
    destruct (Summary.print_test_summary ctx) as [n console]. cbn in Hpos.
    apply Z.ltb_lt in Hpos. rewrite Hpos.
    destruct (env_with_coverage ctx);
      [destruct (Coverage.generate_coverage_report ctx w)|]; cbn.
    + now rewrite append_assoc.
    + reflexivity.
Qed.

Lemma post_build_fun_verdict_witness :
  PostBuild.o_fatal
    (PostBuild.post_build_fun (H := Samples.scripted)
       (Samples.ctx_of (Some [Samples.r_a; Samples.r_c]) true) []) = None
  ∧ PostBuild.o_fatal
      (PostBuild.post_build_fun (H := Samples.scripted)
         (Samples.ctx_of (Some [Samples.r_a; Samples.r_b]) false) [])
    = Some "Some tests have failed. (1.2s)".
Proof.
  split.
  - apply (proj1 (post_build_fun_verdict (H := Samples.scripted)
                    (Samples.ctx_of (Some [Samples.r_a; Samples.r_c]) true) [])).
    repeat constructor.
  - apply (proj2 (post_build_fun_verdict (H := Samples.scripted)
                    (Samples.ctx_of (Some [Samples.r_a; Samples.r_b]) false) [])).
    right. left. discriminate.
Defined.

(** ** What the summary prints *)

Lemma print_fail_length (lst : list tup) :
  length (flat_map Summary.print_fail lst)
  = (3 * length (List.filter Summary.failed lst))%nat.
Proof.
  induction lst as [|x lst IH]; [reflexivity|].
  cbn [flat_map List.filter]. rewrite length_app, IH.
  unfold Summary.print_fail. destruct (Summary.failed x); cbn [length]; lia.
Qed.

Lemma print_pass_length (show : bool) (lst : list tup) :
  (length (flat_map (Summary.print_pass show) lst)
   + (if show then 3 else 1) * length (List.filter Summary.failed lst)
   = (if show then 3 else 1) * length lst)%nat.
Proof.
  induction lst as [|x lst IH]; [cbn; lia|].
  cbn [flat_map List.filter]. rewrite length_app.
  unfold Summary.print_pass at 1.
  destruct (Summary.failed x), show; cbn [negb length] in *; lia.
Qed.

(** X2. The summary prints three lines (title and the two counts), three
    lines for each failing result, and for each passing result one line, or
    three when [show_test_out] is set. *)
Theorem print_test_summary_size (ctx : build_context) :
  let r := Summary.print_test_summary ctx in
  let per_pass := if show_test_out (ctx_options ctx) then 3 else 1 in
  Z.of_nat (length (snd r))
  = 3 + per_pass * (Z.of_nat (length (getattr_utest_results ctx)) - fst r)
    + 3 * fst r.
Proof.
  cbn zeta. unfold Summary.print_test_summary. cbn [fst snd].
  rewrite !length_app. cbn [length]. rewrite print_fail_length.
  pose proof (print_pass_length (show_test_out (ctx_options ctx))
                (getattr_utest_results ctx)) as Hp.
  destruct (show_test_out (ctx_options ctx)); lia.
Qed.

(** X3. The output of a failing result is always printed in full, between
    its two yellow frame lines, whatever [show_test_out] says. *)
Theorem failing_output_always_shown (ctx : build_context) (x : tup) :
  x ∈ getattr_utest_results ctx →
  t_code x ≠ 0 →
  ∃ before after,
    snd (Summary.print_test_summary ctx)
    = before
      ++ [ Pprint "YELLOW" ("[" +:+ abspath (t_node x) +:+ " (TEST)] <<<<<<<<<<");
           Pprint "CYAN" (t_out x);
           Pprint "YELLOW" ">>>>>>>>>>" ]
      ++ after.
Proof.
  intros Hin Hcode.
  apply list_elem_of_split in Hin as (l1 & l2 & Hl).
  assert (Hf : flat_map Summary.print_fail (getattr_utest_results ctx)
               = flat_map Summary.print_fail l1
                 ++ [ Pprint "YELLOW"
                        ("[" +:+ abspath (t_node x) +:+ " (TEST)] <<<<<<<<<<");
                      Pprint "CYAN" (t_out x);
                      Pprint "YELLOW" ">>>>>>>>>>" ]
                 ++ flat_map Summary.print_fail l2).
  { rewrite Hl, flat_map_app. cbn [flat_map]. f_equal.
    unfold Summary.print_fail at 1. unfold Summary.failed.
    destruct (Z.eqb_spec (t_code x) 0) as [|_]; [contradiction|]. reflexivity. }
  unfold Summary.print_test_summary. cbn [snd]. rewrite Hf.
  generalize (flat_map Summary.print_fail l1) (flat_map Summary.print_fail l2).
  generalize (flat_map (Summary.print_pass (show_test_out (ctx_options ctx)))
                (getattr_utest_results ctx)).
  generalize (Summary.pass_line
                (Z.of_nat (length (getattr_utest_results ctx))
                 - Z.of_nat (length (List.filter Summary.failed
                                       (getattr_utest_results ctx))))
                (Z.of_nat (length (getattr_utest_results ctx)))).
  generalize (Summary.fail_line
                (Z.of_nat (length (List.filter Summary.failed
                                     (getattr_utest_results ctx))))
                (Z.of_nat (length (getattr_utest_results ctx)))).
  intros fl pl pe f1 f2.
  exists ([Pprint "CYAN" "Test Summary"] ++ [pl] ++ pe ++ [fl] ++ f1), f2.
  rewrite <- !app_assoc. reflexivity.
Qed.

Lemma failing_output_always_shown_witness :
  ∃ before after,
    snd (Summary.print_test_summary
           (Samples.ctx_of (Some [Samples.r_a; Samples.r_b; Samples.r_c]) false))
    = before
      ++ [ Pprint "YELLOW" "[/b/g/b.t (TEST)] <<<<<<<<<<";
           Pprint "CYAN" "FAILED b";
           Pprint "YELLOW" ">>>>>>>>>>" ]
      ++ after.
Proof.
  apply (failing_output_always_shown
           (Samples.ctx_of (Some [Samples.r_a; Samples.r_b; Samples.r_c]) false)
           Samples.r_b).
  - cbn. apply list_elem_of_further, list_elem_of_here.
  - discriminate.
Defined.

(** ** The coverage generator *)

Section GeneratorFacts.
Context `{Host}.

Lemma run_cmds_success (cwd : string) (cmds : list (list string * string)) :
  ∀ (cmd_len cmd_idx : Z) (p : Coverage.progress),
    (Coverage.run_cmds cwd cmd_len cmd_idx cmds p).1 = true
    ↔ Forall (λ e, e.2 = 0) (Coverage.run_all cwd cmds (Coverage.p_world p)).
Proof.
  induction cmds as [|[cmd desc] cmds IH]; intros cmd_len cmd_idx p.
  - cbn. split; [constructor|reflexivity].
  - cbn.
    destruct (popen_wait cmd cwd (Coverage.p_world p)) as [[out rc] w'] eqn:Hrun.
    destruct (Z.eqb_spec rc 0) as [->|Hrc]; cbn.
    + rewrite IH. cbn. split; [now constructor|].
      intros HF. now apply Forall_cons in HF as [_ HF].
    + split; [discriminate|]. intros HF.
      apply Forall_cons in HF as [HF _]. contradiction.
Qed.

Lemma run_cmds_success_log (cwd : string) (cmds : list (list string * string)) :
  ∀ (cmd_len cmd_idx : Z) (p : Coverage.progress),
    Forall (λ e, e.2 = 0) (Coverage.run_all cwd cmds (Coverage.p_world p)) →
    Coverage.p_logfile (Coverage.run_cmds cwd cmd_len cmd_idx cmds p).2
    = Coverage.p_logfile p
      ++ flat_map Coverage.log_section
           (Coverage.run_all cwd cmds (Coverage.p_world p)).
Proof.
  induction cmds as [|[cmd desc] cmds IH]; intros cmd_len cmd_idx p Hok.
  - cbn. now rewrite app_nil_r.
  - cbn in Hok |- *.
    destruct (popen_wait cmd cwd (Coverage.p_world p)) as [[out rc] w'] eqn:Hrun.
    apply Forall_cons in Hok as [Hrc0 Hok]. cbn in Hrc0. subst rc. cbn.
    rewrite IH by exact Hok. cbn. unfold Coverage.banner.
    rewrite <- !app_assoc. reflexivity.
Qed.

(** The commands started are always the first ones of the list, and the
    first command is always started. *)
Lemma run_cmds_started_prefix (cwd : string) (cmds : list (list string * string)) :
  ∀ (cmd_len cmd_idx : Z) (p : Coverage.progress),
    ∃ n : nat,
      (n <= length cmds)%nat ∧ (cmds ≠ [] → (1 <= n)%nat)
      ∧ Coverage.p_started (Coverage.run_cmds cwd cmd_len cmd_idx cmds p).2
        = Coverage.p_started p ++ take n (map fst cmds).
Proof.
  induction cmds as [|[cmd desc] cmds IH]; intros cmd_len cmd_idx p.
  - exists 0%nat. cbn. rewrite app_nil_r. repeat split; [lia|congruence].
  - cbn.
    destruct (popen_wait cmd cwd (Coverage.p_world p)) as [[out rc] w'] eqn:Hrun.
    destruct (negb (rc =? 0)).
    + exists 1%nat. cbn. rewrite take_0. repeat split; lia.
    + destruct (IH cmd_len (cmd_idx + 1)
                   (Coverage.Progress w'
                      (Coverage.p_console p
                       ++ [Info (Coverage.step_msg cmd_idx cmd_len desc)])
                      ((Coverage.p_logfile p ++ Coverage.banner cmd) ++ out)
                      (Coverage.p_started p ++ [cmd]))) as (n & Hn & _ & Hs).
      exists (S n). cbn in Hs |- *. rewrite Hs, <- app_assoc.
      repeat split; lia.
Qed.

Lemma generate_started (ctx : build_context) (w : world) :
  Coverage.p_started (Coverage.generate_coverage_report ctx w).2
  = Coverage.p_started
      (Coverage.run_cmds (path_abspath ctx)
         (Z.of_nat (length (Coverage.cmd_descs ctx))) 0 (Coverage.cmd_descs ctx)
         (Coverage.Progress w
            [ Pprint "CYAN" "Generating Test Coverage Report";
              Pprint "GREEN" ("  log file: "
                 +:+ os_path_join (bldnode_abspath ctx) "coverage.log") ]
            (Coverage.log_header ctx) [])).2.
Proof.
  unfold Coverage.generate_coverage_report.
  destruct (Coverage.run_cmds _ _ _ _ _) as [[|] p]; reflexivity.
Qed.

Lemma post_build_fun_world (ctx : build_context) (w : world) :
  PostBuild.o_world (PostBuild.post_build_fun ctx w)
  = if env_with_coverage ctx
    then Coverage.p_world (Coverage.generate_coverage_report ctx w).2
    else w.
Proof.
  unfold PostBuild.post_build_fun.
  destruct (Summary.print_test_summary ctx) as [n console].
  destruct (0 <? n); destruct (env_with_coverage ctx);
    try destruct (Coverage.generate_coverage_report ctx w) as [ok p];
    reflexivity.
Qed.

End GeneratorFacts.

(** X4. The coverage generator returns success exactly when each of the
    five children exits with code 0.  It has then started the five commands
    in order, the log file is its header followed by the five sections, and
    the last two lines on the console are "Generated Report" and the path
    of [index.html] in the output directory. *)
Theorem coverage_report_success `{Host} (ctx : build_context) (w : world) :
  let trace := Coverage.run_all (path_abspath ctx) (Coverage.cmd_descs ctx) w in
  let r := Coverage.generate_coverage_report ctx w in
  (r.1 = true ↔ Forall (λ e, e.2 = 0) trace)
  ∧ (r.1 = true →
     Coverage.p_started r.2 = map fst (Coverage.cmd_descs ctx)
     ∧ Coverage.p_logfile r.2
       = Coverage.log_header ctx ++ flat_map Coverage.log_section trace
     ∧ ∃ c, Coverage.p_console r.2
            = c ++ [ Pprint "CYAN" "Generated Report";
                     Pprint "YELLOW"
                       ("  " +:+ os_path_join (Coverage.test_coverage_out_path ctx)
                                   "index.html") ]).
Proof.
  intros trace r.
  pose (p0 := Coverage.Progress w
                [ Pprint "CYAN" "Generating Test Coverage Report";
                  Pprint "GREEN" ("  log file: "
                     +:+ os_path_join (bldnode_abspath ctx) "coverage.log") ]
                (Coverage.log_header ctx) []).
  pose proof (run_cmds_success (path_abspath ctx) (Coverage.cmd_descs ctx)
                (Z.of_nat (length (Coverage.cmd_descs ctx))) 0 p0) as Hiff.
  pose proof (run_cmds_success_log (path_abspath ctx) (Coverage.cmd_descs ctx)
                (Z.of_nat (length (Coverage.cmd_descs ctx))) 0 p0) as Hlog.
  pose proof (run_cmds_all_ok (path_abspath ctx) (Coverage.cmd_descs ctx)
                (Z.of_nat (length (Coverage.cmd_descs ctx))) 0 p0) as Hall.
  assert (Hr1 : r.1 = (Coverage.run_cmds (path_abspath ctx)
                         (Z.of_nat (length (Coverage.cmd_descs ctx))) 0
                         (Coverage.cmd_descs ctx) p0).1).
  { subst r. unfold Coverage.generate_coverage_report. fold p0.
    destruct (Coverage.run_cmds _ _ _ _ p0) as [[|] p]; reflexivity. }
  split; [rewrite Hr1; exact Hiff|].
  intros Hok. rewrite Hr1 in Hok. apply Hiff in Hok as Htrace.
  specialize (Hlog Htrace). destruct (Hall Htrace) as [_ Hst].
  subst r. unfold Coverage.generate_coverage_report. fold p0.
  destruct (Coverage.run_cmds _ _ _ _ p0) as [ok p]. cbn in Hok, Hlog, Hst.
  subst ok. cbn. repeat split; [exact Hst|exact Hlog|].
  now exists (Coverage.p_console p).
Qed.

Lemma coverage_report_success_witness :
  Coverage.p_started
    (Coverage.generate_coverage_report (H := Samples.scripted)
       (Samples.ctx_of (Some [Samples.r_a]) true) []).2
  = map fst (Coverage.cmd_descs (H := Samples.scripted)
               (Samples.ctx_of (Some [Samples.r_a]) true)).
Proof.
  apply (proj2 (coverage_report_success (H := Samples.scripted)
                  (Samples.ctx_of (Some [Samples.r_a]) true) [])).
  vm_compute. reflexivity.
Defined.

(** X5. With coverage disabled the post-build function starts no process
    and leaves the world as it is; with coverage enabled it starts at least
    the first and at most all five commands of the pipeline, in order. *)
Theorem post_build_fun_processes `{Host} (ctx : build_context) (w : world) :
  (env_with_coverage ctx = false →
     PostBuild.o_started (PostBuild.post_build_fun ctx w) = []
     ∧ PostBuild.o_world (PostBuild.post_build_fun ctx w) = w)
  ∧ (env_with_coverage ctx = true →
     ∃ n : nat,
       (1 <= n <= 5)%nat
       ∧ PostBuild.o_started (PostBuild.post_build_fun ctx w)
         = take n (map fst (Coverage.cmd_descs ctx))).
Proof.
  rewrite post_build_fun_started, post_build_fun_world. split; intros Hcov;
    rewrite Hcov; [split; reflexivity|].
  rewrite generate_started.
  destruct (run_cmds_started_prefix (path_abspath ctx) (Coverage.cmd_descs ctx)
              (Z.of_nat (length (Coverage.cmd_descs ctx))) 0
              (Coverage.Progress w
                 [ Pprint "CYAN" "Generating Test Coverage Report";
                   Pprint "GREEN" ("  log file: "
                      +:+ os_path_join (bldnode_abspath ctx) "coverage.log") ]
                 (Coverage.log_header ctx) [])) as (n & Hn & Hpos & Hs).
  exists n. rewrite Hs. split; [|reflexivity].
  rewrite cmd_descs_length in Hn. split; [|exact Hn].
  apply Hpos. discriminate.
Qed.

Lemma post_build_fun_processes_witness :
  PostBuild.o_started
    (PostBuild.post_build_fun (H := Samples.scripted)
       (Samples.ctx_of (Some [Samples.r_a]) false) [1]) = []
  ∧ ∃ n : nat,
      (1 <= n <= 5)%nat
      ∧ PostBuild.o_started
          (PostBuild.post_build_fun (H := Samples.scripted)
             (Samples.ctx_of None true) [1])
        = take n (map fst (Coverage.cmd_descs (H := Samples.scripted)
                             (Samples.ctx_of None true))).
Proof.
  split.
  - apply (proj1 (post_build_fun_processes (H := Samples.scripted)
                    (Samples.ctx_of (Some [Samples.r_a]) false) [1])).
    reflexivity.
  - apply (proj2 (post_build_fun_processes (H := Samples.scripted)
                    (Samples.ctx_of None true) [1])).
    reflexivity.
Defined.

(** ** The directories given to lcov *)

Lemma dir_set_fold (f : tup → string) (lst : list tup) :
  ∀ acc : gset string,
    foldl (λ acc x, let p := f x in
                    if bool_decide (p ∈ acc) then acc else acc ∪ {[p]}) acc lst
    = acc ∪ list_to_set (map f lst).
Proof.
  induction lst as [|x lst IH]; intros acc; cbn.
  - now rewrite union_empty_r_L.
  - rewrite IH. apply set_eq. intros y. case_bool_decide as Hin;
      rewrite !elem_of_union, ?elem_of_singleton; [|tauto].
    split; [tauto|]. intros [Hy|[->|Hy]]; tauto.
Qed.

Lemma dir_set_elem (f : tup → string) (lst : list tup) (p : string) :
  p ∈ foldl (λ acc x, let p := f x in
                      if bool_decide (p ∈ acc) then acc else acc ∪ {[p]})
            (∅ : gset string) lst
  ↔ ∃ x, x ∈ lst ∧ p = f x.
Proof.
  rewrite dir_set_fold, elem_of_union, elem_of_list_to_set, list_elem_of_fmap.
  split.
  - intros [He|(x & Hp & Hx)]; [now apply not_elem_of_empty in He|eauto].
  - intros (x & Hx & Hp). right. eauto.
Qed.

(** X6. The [-d] options given to lcov name each directory of a test
    driver or of a test source of the recorded results, each directory once
    and no other directory. *)
Theorem lcov_directories (lst : list tup) :
  ∃ dirs : list string,
    Coverage.lcov_d lst = flat_map (λ p, ["-d"; p]) dirs
    ∧ NoDup dirs
    ∧ ∀ p, p ∈ dirs
           ↔ ∃ x, x ∈ lst
                  ∧ (p = parent_abspath (t_node x) ∨ p = parent_abspath (t_src x)).
Proof.
  exists (elements (Coverage.test_dir_paths lst ∪ Coverage.src_dir_paths lst)).
  split; [reflexivity|]. split; [apply NoDup_elements|].
  intros p. rewrite elem_of_elements, elem_of_union.
  unfold Coverage.test_dir_paths, Coverage.src_dir_paths.
  rewrite !dir_set_elem. split.
  - intros [(x & Hx & Hp)|(x & Hx & Hp)]; exists x; auto.
  - intros (x & Hx & [Hp|Hp]); [left|right]; eauto.
Qed.

(** ** More on the command line *)

(** X7. The command line carries the two valgrind arguments, [--valgrind]
    and the selected tool, exactly when the valgrind toggle is on, and they
    come last; the interpreter, the runner script and the test binary are
    paths, not options. *)
Theorem get_testcmd_valgrind (sys_executable test_runner_path : string)
    (opts : options) (nd : node) :
  String.prefix "--valgrind" sys_executable = false →
  String.prefix "--valgrind" test_runner_path = false →
  String.prefix "--valgrind" (abspath nd) = false →
  valgrind_args (Utest.get_testcmd sys_executable test_runner_path opts nd)
  = (if valgrind opts
     then ["--valgrind"; "--valgrind-tool=" +:+ valgrind_tool opts] else [])
  ∧ (valgrind opts = true →
     ∃ front,
       Utest.get_testcmd sys_executable test_runner_path opts nd
       = front ++ ["--valgrind"; "--valgrind-tool=" +:+ valgrind_tool opts]).
Proof.
  intros He Hr Hn. split.
  - unfold valgrind_args, Utest.get_testcmd.
    destruct (test_junit opts), (valgrind opts);
      rewrite ?append_cons, ?append_nil_l; cbn;
      rewrite He, Hr, Hn, ?prefix_empty; reflexivity.
  - intros Hv. unfold Utest.get_testcmd. rewrite Hv. eauto.
Qed.

Lemma get_testcmd_valgrind_witness :
  valgrind_args (Utest.get_testcmd "/usr/bin/python" "/r/bin/bde_runtest.py"
                   Samples.junit_options Samples.a_t)
  = ["--valgrind"; "--valgrind-tool=memcheck"].
Proof.
  exact (proj1 (get_testcmd_valgrind "/usr/bin/python" "/r/bin/bde_runtest.py"
                  Samples.junit_options Samples.a_t eq_refl eq_refl eq_refl)).
Defined.

(** ** More on the environment of the test process *)

Lemma compute_paths_lookup (os : os_t) (bld : build_context) (var : string) :
  Env.compute_paths os bld !! var
  = if bool_decide (var ∈ Env.search_path_vars os)
    then Some (String.concat (pathsep os)
                 (Env.link_dirs (groups bld)
                  ++ [default EmptyString (environ os !! var)]))
    else environ os !! var.
Proof.
  unfold Env.compute_paths, Env.search_path_vars.
  destruct (is_win32 os);
    [|destruct (String.eqb (unversioned_sys_platform os) "darwin")];
    rewrite ?add_path_lookup;
    repeat case_decide; subst;
    repeat (case_bool_decide as Hin); try reflexivity;
    exfalso; rewrite ?elem_of_cons, ?elem_of_nil in Hin;
    try (apply Hin; tauto);
    intuition congruence.
Qed.

(** X8. When a search-path variable of the platform is not set in the
    ambient environment, the resolver sets it all the same: to the joined
    link directories followed by a trailing separator (an empty last
    entry), or to the empty string when the build graph has no link
    output. *)
Theorem resolve_unset_variable (os : os_t) (bld : build_context) (var : string) :
  all_test_paths bld = None →
  var ∈ Env.search_path_vars os →
  environ os !! var = None →
  (Env.link_dirs (groups bld) = [] →
     (Env.resolve os bld).1 !! var = Some EmptyString)
  ∧ (Env.link_dirs (groups bld) ≠ [] →
     (Env.resolve os bld).1 !! var
     = Some (String.concat (pathsep os) (Env.link_dirs (groups bld))
             +:+ pathsep os)).
Proof.
  intros Hnone Hvar Hunset. unfold Env.resolve. rewrite Hnone. cbn [fst].
  rewrite compute_paths_lookup, bool_decide_eq_true_2, Hunset by exact Hvar.
  cbn [default]. split.
  - intros ->. reflexivity.
  - intros Hne. rewrite concat_snoc by exact Hne. do 2 f_equal.
    generalize (pathsep os). intros s. induction s as [|c s IH]; [reflexivity|].
    rewrite append_cons. now rewrite IH.
Qed.

Lemma resolve_unset_variable_witness :
  (Env.resolve Samples.darwin Samples.bld_graph).1 !! "DYLD_LIBRARY_PATH"
  = Some "/b/g:/b/h:".
Proof.
  refine (proj2 (resolve_unset_variable Samples.darwin Samples.bld_graph
                   "DYLD_LIBRARY_PATH" eq_refl _ eq_refl) _).
  - vm_compute. apply list_elem_of_here.
  - vm_compute. discriminate.
Defined.

(** X9. The directory of the test driver of every task generator of the
    build graph is among the directories the resolver puts on the search
    path. *)
Theorem test_driver_dir_on_search_path (bld : build_context) (tg : task_gen)
    (nd : node) :
  tg ∈ concat (groups bld) →
  testdriver_of tg = Some nd →
  parent_abspath nd ∈ Env.link_dirs (groups bld).
Proof.
  intros Htg Hnd. rewrite link_dirs_dedup_first, dedup_first_elem_of.
  unfold Env.all_link_dirs. apply list_elem_of_omap. exists tg.
  split; [exact Htg|].
  unfold testdriver_of, make_test in Hnd.
  destruct (link_task tg) as [lt|]; [|discriminate].
  cbn in Hnd. injection Hnd as <-. reflexivity.
Qed.

Lemma test_driver_dir_on_search_path_witness :
  "/b/g" ∈ Env.link_dirs (groups Samples.bld_graph).
Proof.
  apply (test_driver_dir_on_search_path Samples.bld_graph Samples.drv_g
           Samples.a_t).
  - cbn. do 3 apply list_elem_of_further. apply list_elem_of_here.
  - reflexivity.
Defined.

(** ** Running one test *)

Section RunFacts.
Context `{Host}.

Lemma append_result_results (x : tup) (bld : build_context) :
  getattr_utest_results (Aggregator.append_result x bld)
  = getattr_utest_results bld ++ [x].
Proof.
  unfold Aggregator.append_result, getattr_utest_results.
  destruct (utest_results bld); reflexivity.
Qed.

Lemma resolve_results (os : os_t) (bld : build_context) :
  utest_results (Env.resolve os bld).2 = utest_results bld
  ∧ groups (Env.resolve os bld).2 = groups bld
  ∧ ctx_options (Env.resolve os bld).2 = ctx_options bld
  ∧ all_test_paths (Env.resolve os bld).2 = Some (Env.resolve os bld).1.
Proof.
  unfold Env.resolve. destruct (all_test_paths bld) eqn:E; cbn; auto.
Qed.

(** What [run] hands to the child process and gets back from it. *)
Lemma utest_run_unfold (sys_executable test_runner_path : string) (os : os_t)
    (nd src : node) (bld : build_context) (w : world) :
  let fu := (Env.resolve os bld).1 in
  let child :=
    popen_communicate
      (Utest.get_testcmd sys_executable test_runner_path (ctx_options bld) nd)
      (parent_abspath nd) fu w in
  utest_run sys_executable test_runner_path os nd src bld w
  = (Aggregator.append_result
       (Tup nd child.1.1.1 child.1.1.2 child.1.2 src) (Env.resolve os bld).2,
     child.2).
Proof.
  cbn zeta. unfold utest_run.
  destruct (resolve_results os bld) as (_ & _ & Hopts & _).
  destruct (Env.resolve os bld) as [fu bld']. cbn in Hopts |- *. rewrite Hopts.
  destruct (popen_communicate _ _ _ _) as [[[rc out] dt] w']. reflexivity.
Qed.

End RunFacts.

(** X10. [run] records exactly one result, after the results recorded
    before, whatever the exit code of the test: its tuple holds the test
    driver, the exit code, output and duration of the child, and the
    source.  The child runs the command of [get_testcmd] in the directory
    of the test driver with the resolved environment, and the environment
    is stored on the build context. *)
Theorem utest_run_records `{Host} (sys_executable test_runner_path : string)
    (os : os_t) (nd src : node) (bld : build_context) (w : world) :
  let r := utest_run sys_executable test_runner_path os nd src bld w in
  let child :=
    popen_communicate
      (Utest.get_testcmd sys_executable test_runner_path (ctx_options bld) nd)
      (parent_abspath nd) (Env.resolve os bld).1 w in
  getattr_utest_results r.1
  = getattr_utest_results bld
    ++ [Tup nd child.1.1.1 child.1.1.2 child.1.2 src]
  ∧ r.2 = child.2
  ∧ all_test_paths r.1 = Some (Env.resolve os bld).1
  ∧ groups r.1 = groups bld.
Proof.
  cbn zeta. rewrite utest_run_unfold. cbn [fst snd].
  destruct (resolve_results os bld) as (Hres & Hgr & _ & Hpaths).
  rewrite append_result_results. unfold getattr_utest_results at 1.
  rewrite Hres. repeat split.
  - unfold Aggregator.append_result.
    destruct (utest_results (Env.resolve os bld).2); exact Hpaths.
  - unfold Aggregator.append_result.
    destruct (utest_results (Env.resolve os bld).2); exact Hgr.
Qed.

(** X11. A test whose process exits with a code other than 0 does not stop
    [run], and makes the post-build function that follows raise the fatal
    error. *)
Theorem failing_test_fails_build `{Host} (sys_executable test_runner_path : string)
    (os : os_t) (nd src : node) (bld : build_context) (w w' : world) :
  (popen_communicate
     (Utest.get_testcmd sys_executable test_runner_path (ctx_options bld) nd)
     (parent_abspath nd) (Env.resolve os bld).1 w).1.1.1 ≠ 0 →
  PostBuild.o_fatal
    (PostBuild.post_build_fun
       (utest_run sys_executable test_runner_path os nd src bld w).1 w')
  ≠ None.
Proof.
  intros Hrc. apply post_build_fun_fatal.
  pose proof (failures_nonneg
                (utest_run sys_executable test_runner_path os nd src bld w).1).
  destruct (Z.eq_dec
              (fst (Summary.print_test_summary
                      (utest_run sys_executable test_runner_path os nd src bld w).1))
              0) as [E|E]; [|lia].
  apply failures_zero in E. rewrite utest_run_unfold in E. cbn [fst] in E.
  rewrite append_result_results in E.
  apply Forall_app in E as [_ E]. apply Forall_cons in E as [E _].
  cbn in E. contradiction.
Qed.

Lemma failing_test_fails_build_witness :
  PostBuild.o_fatal
    (PostBuild.post_build_fun (H := Samples.scripted)
       (utest_run (H := Samples.scripted) "/usr/bin/python" "/r/bin/bde_runtest.py"
          Samples.linux Samples.a_t Samples.a_src Samples.bld_graph [3]).1 [])
  ≠ None.
Proof.
  apply (failing_test_fails_build (H := Samples.scripted)).
  vm_compute. discriminate.
Defined.

(** ** add_coverage *)

(** X12. With coverage enabled [add_coverage] leaves a [uselib] list that
    holds ["GCOV"], keeps the entries there were in front and in order, and
    has no duplicate if there was none; applying it again changes nothing.
    With coverage disabled the attribute is left as it is. *)
Theorem add_coverage_uselib (uselib : option (list string)) :
  (∃ l, add_coverage true uselib = Some l
        ∧ "GCOV" ∈ l
        ∧ default [] uselib `prefix_of` l
        ∧ (NoDup (default [] uselib) → NoDup l))
  ∧ add_coverage true (add_coverage true uselib) = add_coverage true uselib
  ∧ add_coverage false uselib = uselib.
Proof.
  split; [|split; [|reflexivity]].
  - destruct uselib as [[|u us]|]; cbn.
    + exists ["GCOV"]. repeat split.
      * apply list_elem_of_here.
      * apply prefix_nil.
      * intros _. apply NoDup_singleton.
    + case_bool_decide as Hin.
      * exists (u :: us). repeat split; auto.
      * exists ((u :: us) ++ ["GCOV"]). repeat split.
        -- apply elem_of_app. right. apply list_elem_of_here.
        -- now apply prefix_app_r.
        -- intros Hnd. apply NoDup_app. repeat split.
           ++ exact Hnd.
           ++ intros y Hy Hy'. apply list_elem_of_singleton in Hy'. now subst y.
           ++ apply NoDup_singleton.
    + exists ["GCOV"]. repeat split.
      * apply list_elem_of_here.
      * apply prefix_nil.
      * intros _. apply NoDup_singleton.
  - destruct uselib as [[|u us]|]; try reflexivity.
    unfold add_coverage.
    destruct (bool_decide ("GCOV" ∈ u :: us)) eqn:E.
    + now rewrite E.
    + cbn [app]. rewrite bool_decide_eq_true_2; [reflexivity|].
      apply (elem_of_app (u :: us) ["GCOV"]). right. apply list_elem_of_here.
Qed.

Lemma add_coverage_uselib_witness :
  ∃ l, add_coverage true (Some ["BSL"; "BDL"]) = Some l ∧ NoDup l.
Proof.
  destruct (add_coverage_uselib (Some ["BSL"; "BDL"]))
    as ((l & Hl & _ & _ & Hnd) & _ & _).
  exists l. split; [exact Hl|]. apply Hnd. cbn.
  repeat constructor; rewrite ?elem_of_cons, ?elem_of_nil;
    intros Hin; intuition discriminate.
Defined.

(** ** More on concurrent workers *)

Section OrderFacts.
Import Aggregator.

Lemma recorded_mono (res res' : list tup) (qs : list (list tup))
    (ws : list worker) :
  (∀ d, sublist d res → sublist d res') →
  Forall2 (recorded_in_order res) qs ws →
  Forall2 (recorded_in_order res') qs ws.
Proof.
  intros Hmono HF. eapply Forall2_impl; [exact HF|].
  intros q w (d & Hq & Hd). exists d. split; [exact Hq|]. now apply Hmono.
Qed.

Lemma order_init (qs : list (list tup)) :
  Forall2 (recorded_in_order []) qs (workers (init qs)).
Proof.
  cbn. induction qs as [|q qs IH]; constructor; [|exact IH].
  exists []. split; [reflexivity|constructor].
Qed.

Lemma order_step (all : list tup) (qs : list (list tup)) (i : nat) (s : state) :
  inv all s →
  Forall2 (recorded_in_order (default [] (results s))) qs (workers s) →
  Forall2 (recorded_in_order (default [] (results (step i s)))) qs
          (workers (step i s)).
Proof.
  intros [_ _ Hassign _] Hord.
  destruct (workers s !! i) as [w|] eqn:Hi;
    [|unfold step; rewrite Hi; exact Hord].
  destruct (step_worker (locked s) (results s) w) as [[[lk res] w']|] eqn:Hw;
    [|unfold step; rewrite Hi, Hw; exact Hord].
  assert (Hin : w ∈ workers s) by (apply list_elem_of_lookup; eauto).
  destruct (step_unfold i s w w' lk res Hi Hw) as [Hws ->]. cbn [results workers].
  set (l1 := take i (workers s)) in *. set (l2 := drop (S i) (workers s)) in *.
  clearbody l1 l2. rewrite Hws in Hord.
  apply Forall2_app_inv_r in Hord as (q1 & q2' & Hq1 & Hq2 & ->).
  apply Forall2_cons_inv_r in Hq2 as (q & q2 & (d & Hq & Hd) & Hq2 & ->).
  unfold step_worker in Hw. destruct w as [qu pc]. cbn in Hw.
  destruct qu as [|x rest]; [discriminate|]. destruct pc.
  - destruct (locked s); [discriminate|]. injection Hw as <- <- <-.
    apply Forall2_app; [exact Hq1|]. constructor; [|exact Hq2]. now exists d.
  - destruct (results s) as [l|] eqn:Hres; injection Hw as <- <- <-; cbn in *.
    + assert (Hmono : ∀ d0, sublist d0 l → sublist d0 (l ++ [x]))
        by (intros d0 Hd0; now apply sublist_inserts_r).
      apply Forall2_app; [now apply (recorded_mono l)|].
      constructor; [|now apply (recorded_mono l)].
      exists (d ++ [x]). split.
      * cbn. rewrite <- app_assoc. exact Hq.
      * apply sublist_app; [exact Hd|reflexivity].
    + apply Forall2_app; [exact Hq1|]. constructor; [|exact Hq2]. now exists d.
  - assert (Hres : results s = None) by (now apply (Hassign _ Hin)).
    rewrite Hres in Hq1, Hq2, Hd. cbn in *. injection Hw as <- <- <-. cbn.
    assert (Hmono : ∀ d0 : list tup, sublist d0 [] → sublist d0 [x]).
    { intros d0 Hd0. apply sublist_nil_r in Hd0 as ->. apply sublist_nil_l. }
    apply Forall2_app; [now apply (recorded_mono [])|].
    constructor; [|now apply (recorded_mono [])].
    apply sublist_nil_r in Hd as ->. exists [x]. split; [exact Hq|reflexivity].
  - injection Hw as <- <- <-.
    apply Forall2_app; [exact Hq1|]. constructor; [|exact Hq2]. now exists d.
Qed.

Lemma order_run_schedule (all : list tup) (qs : list (list tup))
    (sched : list nat) :
  ∀ s, inv all s →
       Forall2 (recorded_in_order (default [] (results s))) qs (workers s) →
       Forall2 (recorded_in_order
                  (default [] (results (run_schedule sched s)))) qs
               (workers (run_schedule sched s)).
Proof.
  induction sched as [|i sched IH]; intros s Hinv Hord; [exact Hord|].
  cbn. apply IH; [now apply inv_step|now apply (order_step all)].
Qed.

End OrderFacts.

(** X13. In every interleaving and at every moment, at most one worker is
    between [acquire] and [release], and the lock is held exactly when one
    is. *)
Theorem append_mutual_exclusion (qs : list (list tup)) (sched : list nat) :
  let s := Aggregator.run_schedule sched (Aggregator.init qs) in
  (Aggregator.cs_count (Aggregator.workers s) <= 1)%nat
  ∧ (Aggregator.locked s = true
     ↔ Aggregator.cs_count (Aggregator.workers s) = 1%nat).
Proof.
  intros s.
  assert (Hinv : Aggregator.inv (concat qs) s)
    by (apply inv_run_schedule, inv_init).
  destruct Hinv as [_ Hlock _ _]. rewrite Hlock.
  destruct (Aggregator.locked s); split; try lia; split; congruence.
Qed.

(** X14. In every interleaving, once all workers are done the results of
    each worker are in the result list in the order that worker recorded
    them. *)
Theorem worker_order_kept (qs : list (list tup)) (sched : list nat)
    (q : list tup) :
  let s := Aggregator.run_schedule sched (Aggregator.init qs) in
  Aggregator.finished s →
  q ∈ qs →
  sublist q (default [] (Aggregator.results s)).
Proof.
  intros s Hfin Hq.
  pose proof (order_run_schedule (concat qs) qs sched (Aggregator.init qs)
                (inv_init qs) (order_init qs)) as Hord.
  fold s in Hord. unfold Aggregator.finished in Hfin.
  apply list_elem_of_lookup in Hq as [i Hi].
  destruct (Forall2_lookup_l _ _ _ _ _ Hord Hi) as (w & Hw & d & Hqd & Hd).
  assert (Hqueue : Aggregator.queue w = []).
  { rewrite Forall_forall in Hfin. apply Hfin. apply list_elem_of_lookup. eauto. }
  unfold Aggregator.pending_of in Hqd. rewrite Hqueue in Hqd.
  destruct (Aggregator.at_pc w); cbn in Hqd; rewrite app_nil_r in Hqd;
    now subst q.
Qed.

Lemma worker_order_kept_witness :
  sublist [Samples.r_a; Samples.r_b]
    (default []
       (Aggregator.results
          (Aggregator.run_schedule [1; 0; 1; 1; 1; 0; 0; 0; 0; 0; 0]%nat
             (Aggregator.init [[Samples.r_a; Samples.r_b]; [Samples.r_c]])))).
Proof.
  apply (worker_order_kept [[Samples.r_a; Samples.r_b]; [Samples.r_c]]
           [1; 0; 1; 1; 1; 0; 0; 0; 0; 0; 0]%nat).
  - repeat constructor.
  - apply list_elem_of_here.
Defined.

(** ** configure *)

(** X16. [configure] raises its own fatal error exactly when coverage is
    requested and the C compiler is not gcc.  When it returns, the
    environment records the coverage option; if coverage was requested, the
    compiler is gcc, the gcov check passed, the three programs were found,
    and [LCOV] is the located lcov command followed by [--gcov-tool] and
    the located gcov; otherwise the tool variables are untouched. *)
Theorem configure_outcome (opt_with_coverage : bool) (h : conf_host)
    (env0 : conf_env) :
  (configure opt_with_coverage h env0
   = ConfFatal "Coverage test is not supported on this compiler."
   ↔ opt_with_coverage = true ∧ conf_compiler_cc h ≠ "gcc")
  ∧ (∀ msg, configure opt_with_coverage h env0 = ConfFatal msg →
            msg = "Coverage test is not supported on this compiler.")
  ∧ (∀ env, configure opt_with_coverage h env0 = ConfOk env →
       ce_with_coverage env = opt_with_coverage
       ∧ (opt_with_coverage = false →
          ce_GCOV env = ce_GCOV env0 ∧ ce_LCOV env = ce_LCOV env0
          ∧ ce_GENHTML env = ce_GENHTML env0)
       ∧ (opt_with_coverage = true →
          conf_compiler_cc h = "gcc" ∧ conf_check h = true
          ∧ conf_find_program h "gcov" = Some (ce_GCOV env)
          ∧ conf_find_program h "genhtml" = Some (ce_GENHTML env)
          ∧ ∃ lcov gcov0,
              conf_find_program h "lcov" = Some lcov
              ∧ head (ce_GCOV env) = Some gcov0
              ∧ ce_LCOV env = lcov ++ ["--gcov-tool"; gcov0])).
Proof.
  unfold configure.
  destruct opt_with_coverage;
    [destruct (String.eqb_spec (conf_compiler_cc h) "gcc") as [Hcc|Hcc];
     [destruct (conf_check h);
      [destruct (conf_find_program h "gcov") as [[|gcov0 gcov]|];
       destruct (conf_find_program h "lcov") as [lcov|];
       destruct (conf_find_program h "genhtml") as [genhtml|]|]|]|].
  all: repeat split; try discriminate; try tauto; try congruence.
  all: try (intros [_ Hne]; congruence).
  all: try (intros [Hf _]; discriminate Hf).
  all: match goal with
       | Heq : ConfOk _ = ConfOk _ |- _ => injection Heq as <-; cbn; eauto 10
       end.
Qed.

(** X17. After a configuration with coverage, each of the four lcov
    commands of the coverage pipeline starts with the located lcov command
    followed by [--gcov-tool] and the located gcov. *)
Theorem lcov_commands_use_configured_gcov `{Host} (h : conf_host)
    (env0 env : conf_env) (ctx : build_context) :
  configure true h env0 = ConfOk env →
  env_LCOV ctx = ce_LCOV env →
  ∃ lcov gcov0,
    conf_find_program h "lcov" = Some lcov
    ∧ head (ce_GCOV env) = Some gcov0
    ∧ ∀ cmd, cmd ∈ take 4 (map fst (Coverage.cmd_descs ctx)) →
             (lcov ++ ["--gcov-tool"; gcov0]) `prefix_of` cmd.
Proof.
  intros Hconf HLCOV. unfold configure in Hconf.
  destruct (String.eqb (conf_compiler_cc h) "gcc"); [|discriminate].
  destruct (conf_check h); [|discriminate].
  destruct (conf_find_program h "gcov") as [[|gcov0 gcov]|]; try discriminate;
    destruct (conf_find_program h "lcov") as [lcov|]; try discriminate;
    destruct (conf_find_program h "genhtml") as [genhtml|]; try discriminate.
  injection Hconf as <-. cbn in HLCOV.
  exists lcov, gcov0. repeat split. intros cmd Hcmd.
  unfold Coverage.cmd_descs in Hcmd. cbn in Hcmd. rewrite HLCOV in Hcmd.
  repeat (apply elem_of_cons in Hcmd as [->|Hcmd]; [now eexists|]).
  now apply elem_of_nil in Hcmd.
Qed.

Lemma lcov_commands_use_configured_gcov_witness :
  ∃ lcov gcov0,
    lcov = ["/usr/bin/lcov"] ∧ gcov0 = "/usr/bin/gcov"
    ∧ ∀ cmd,
        cmd ∈ take 4 (map fst (Coverage.cmd_descs (H := Samples.scripted)
                                 (Bld [] None None Samples.default_options true
                                      ["/usr/bin/lcov"; "--gcov-tool"; "/usr/bin/gcov"]
                                      "/usr/bin/genhtml" "/b" "/s" "0s"))) →
        (lcov ++ ["--gcov-tool"; gcov0]) `prefix_of` cmd.
Proof.
  destruct (lcov_commands_use_configured_gcov (H := Samples.scripted)
              (ConfHost "gcc" true (λ name, Some ["/usr/bin/" +:+ name]))
              (ConfEnv false [] [] [])
              (ConfEnv true ["/usr/bin/gcov"]
                 ["/usr/bin/lcov"; "--gcov-tool"; "/usr/bin/gcov"]
                 ["/usr/bin/genhtml"])
              (Bld [] None None Samples.default_options true
                   ["/usr/bin/lcov"; "--gcov-tool"; "/usr/bin/gcov"]
                   "/usr/bin/genhtml" "/b" "/s" "0s")
              eq_refl eq_refl) as (lcov & gcov0 & Hl & Hg & Hcmds).
  exists lcov, gcov0. cbn in Hl, Hg.
  injection Hl as <-. injection Hg as <-. auto.
Defined.

(** ** More on durations *)

Lemma fmt_02d_two_digits (z : Z) :
  0 <= z < 100 → String.length (fmt_02d z) = 2%nat.
Proof.
  intros Hz. rewrite <- (Z2Nat.id z) by lia.
  assert (Hn : (Z.to_nat z < 100)%nat) by lia.
  generalize dependent (Z.to_nat z). clear. intros n Hn.
  do 100 (destruct n as [|n]; [reflexivity|]). lia.
Qed.

Lemma string_length_append (a b : string) :
  String.length (a +:+ b) = (String.length a + String.length b)%nat.
Proof.
  induction a as [|c a IH]; [reflexivity|].
  rewrite append_cons. cbn [String.length]. now rewrite IH.
Qed.

(** X18. A duration from one minute up to, but not including, one hundred
    minutes is rendered in exactly five characters. *)
Theorem get_time_width (t : Q) :
  (60 <= t)%Q → (t < 6000)%Q →
  String.length (Summary.get_time t) = 5%nat.
Proof.
  intros H60 H6000. rewrite get_time_minutes by exact H60.
  destruct (divmod60_large t H60) as (_ & _ & _ & Hq).
  rewrite Hq by (eapply Qlt_trans; [exact H6000|reflexivity]).
  assert (Hlo : 60 <= Qfloor t) by (apply Qfloor_at_least; exact H60).
  assert (Hhi : Qfloor t < 6000) by (apply Qfloor_below; exact H6000).
  assert (Hm : 1 <= Qfloor t / 60 < 100).
  { split; [apply Z.div_le_lower_bound; lia|].
    apply Z.div_lt_upper_bound; lia. }
  pose proof (fmt_02d_two_digits (Qfloor t / 60) ltac:(lia)) as L1.
  pose proof (fmt_02d_two_digits (Qfloor t mod 60)
                ltac:(pose proof (Z.mod_pos_bound (Qfloor t) 60); lia)) as L2.
  rewrite !string_length_append, L1, L2. reflexivity.
Qed.

Lemma get_time_width_witness :
  String.length (Summary.get_time (5999 # 1)) = 5%nat.
Proof.
  exact (get_time_width (5999 # 1) ltac:(discriminate) ltac:(reflexivity)).
Defined.


(** ** Two tests in a row *)

(** X19. When two tests are run one after the other, the second child
    gets the environment that was resolved for the first, even if the
    ambient environment has changed in between, and the two results are
    recorded in that order after the earlier ones. *)
Theorem utest_run_twice `{Host} (sys_executable test_runner_path : string)
    (os1 os2 : os_t) (nd1 src1 nd2 src2 : node) (bld : build_context)
    (w : world) :
  let fu := (Env.resolve os1 bld).1 in
  let r1 := utest_run sys_executable test_runner_path os1 nd1 src1 bld w in
  let r2 := utest_run sys_executable test_runner_path os2 nd2 src2 r1.1 r1.2 in
  let child1 :=
    popen_communicate
      (Utest.get_testcmd sys_executable test_runner_path (ctx_options bld) nd1)
      (parent_abspath nd1) fu w in
  let child2 :=
    popen_communicate
      (Utest.get_testcmd sys_executable test_runner_path (ctx_options bld) nd2)
      (parent_abspath nd2) fu child1.2 in
  getattr_utest_results r2.1
  = getattr_utest_results bld
    ++ [ Tup nd1 child1.1.1.1 child1.1.1.2 child1.1.2 src1;
         Tup nd2 child2.1.1.1 child2.1.1.2 child2.1.2 src2 ]
  ∧ r2.2 = child2.2
  ∧ all_test_paths r2.1 = Some fu.
Proof.
  cbn zeta.
  set (fu := (Env.resolve os1 bld).1).
  set (child1 := popen_communicate
                   (Utest.get_testcmd sys_executable test_runner_path
                      (ctx_options bld) nd1) (parent_abspath nd1) fu w).
  set (x1 := Tup nd1 child1.1.1.1 child1.1.1.2 child1.1.2 src1).
  assert (Hr1 : utest_run sys_executable test_runner_path os1 nd1 src1 bld w
                = (Aggregator.append_result x1 (Env.resolve os1 bld).2, child1.2))
    by apply utest_run_unfold.
  rewrite Hr1. cbn [fst snd].
  set (bld1 := Aggregator.append_result x1 (Env.resolve os1 bld).2).
  destruct (resolve_results os1 bld) as (Hres & _ & Hopts & Hpaths).
  assert (Hpaths1 : all_test_paths bld1 = Some fu).
  { subst bld1. unfold Aggregator.append_result.
    destruct (utest_results (Env.resolve os1 bld).2); exact Hpaths. }
  assert (Hopts1 : ctx_options bld1 = ctx_options bld).
  { subst bld1. unfold Aggregator.append_result.
    destruct (utest_results (Env.resolve os1 bld).2); exact Hopts. }
  assert (Hres1 : getattr_utest_results bld1 = getattr_utest_results bld ++ [x1]).
  { subst bld1. rewrite append_result_results. unfold getattr_utest_results.
    now rewrite Hres. }
  assert (Hresolve : Env.resolve os2 bld1 = (fu, bld1)).
  { unfold Env.resolve. now rewrite Hpaths1. }
  rewrite utest_run_unfold. rewrite Hresolve, Hopts1. cbn [fst snd].
  rewrite append_result_results, Hres1, <- app_assoc. repeat split.
  unfold Aggregator.append_result.
  destruct (utest_results bld1); exact Hpaths1.
Qed.

(** ** The message that all tests passed *)

Section ConsoleFacts.
Context `{Host}.

(** The records of the console that are not [Info "All tests passed."]. *)
Lemma step_msg_not_passed (cmd_idx cmd_len : Z) (desc : string) :
  Info (Coverage.step_msg cmd_idx cmd_len desc) ≠ Info "All tests passed.".
Proof.
  unfold Coverage.step_msg. rewrite append_cons. discriminate.
Qed.

Lemma run_cmds_console (cwd : string) (cmds : list (list string * string)) :
  ∀ (cmd_len cmd_idx : Z) (p : Coverage.progress),
    Info "All tests passed." ∉ Coverage.p_console p →
    Info "All tests passed."
    ∉ Coverage.p_console (Coverage.run_cmds cwd cmd_len cmd_idx cmds p).2.
Proof.
  induction cmds as [|[cmd desc] cmds IH]; intros cmd_len cmd_idx p Hp.
  - exact Hp.
  - cbn.
    destruct (popen_wait cmd cwd (Coverage.p_world p)) as [[out rc] w'].
    assert (Hp' : Info "All tests passed."
                  ∉ Coverage.p_console p
                    ++ [Info (Coverage.step_msg cmd_idx cmd_len desc)]).
    { intros Hin. apply elem_of_app in Hin as [Hin|Hin]; [now apply Hp|].
      apply list_elem_of_singleton in Hin.
      symmetry in Hin. now apply step_msg_not_passed in Hin. }
    destruct (negb (rc =? 0)); [exact Hp'|]. now apply IH.
Qed.

Lemma generate_console (ctx : build_context) (w : world) :
  Info "All tests passed."
  ∉ Coverage.p_console (Coverage.generate_coverage_report ctx w).2.
Proof.
  unfold Coverage.generate_coverage_report.
  pose proof (run_cmds_console (path_abspath ctx) (Coverage.cmd_descs ctx)
                (Z.of_nat (length (Coverage.cmd_descs ctx))) 0
                (Coverage.Progress w
                   [ Pprint "CYAN" "Generating Test Coverage Report";
                     Pprint "GREEN" ("  log file: "
                        +:+ os_path_join (bldnode_abspath ctx) "coverage.log") ]
                   (Coverage.log_header ctx) [])) as Hc.
  destruct (Coverage.run_cmds _ _ _ _ _) as [[|] p]; cbn in Hc |- *.
  - intros Hin. apply elem_of_app in Hin as [Hin|Hin].
    + revert Hin. apply Hc. cbn. intros Hin.
      repeat (apply elem_of_cons in Hin as [Hin|Hin]; [discriminate Hin|]).
      now apply elem_of_nil in Hin.
    + repeat (apply elem_of_cons in Hin as [Hin|Hin]; [discriminate Hin|]).
      now apply elem_of_nil in Hin.
  - apply Hc. cbn. intros Hin.
    repeat (apply elem_of_cons in Hin as [Hin|Hin]; [discriminate Hin|]).
    now apply elem_of_nil in Hin.
Qed.

Lemma summary_console (ctx : build_context) :
  Info "All tests passed." ∉ snd (Summary.print_test_summary ctx).
Proof.
  unfold Summary.print_test_summary. cbn [snd].
  assert (Hpass : ∀ show l, Info "All tests passed."
                            ∉ flat_map (Summary.print_pass show) l).
  { intros show l Hin. apply list_elem_of_In, in_flat_map in Hin as (x & _ & Hin).
    unfold Summary.print_pass in Hin.
    destruct (Summary.failed x), show; cbn in Hin; intuition discriminate. }
  assert (Hfail : ∀ l, Info "All tests passed." ∉ flat_map Summary.print_fail l).
  { intros l Hin. apply list_elem_of_In, in_flat_map in Hin as (x & _ & Hin).
    unfold Summary.print_fail in Hin.
    destruct (Summary.failed x); cbn in Hin; intuition discriminate. }
  intros Hin.
  repeat (apply elem_of_app in Hin as [Hin|Hin]);
    try (now apply Hpass in Hin); try (now apply Hfail in Hin);
    apply list_elem_of_singleton in Hin; discriminate Hin.
Qed.

End ConsoleFacts.

(** X20. The post-build function logs "All tests passed." exactly when it
    does not raise the fatal error, also when the coverage report could not
    be generated. *)
Theorem all_tests_passed_logged `{Host} (ctx : build_context) (w : world) :
  Info "All tests passed." ∈ PostBuild.o_console (PostBuild.post_build_fun ctx w)
  ↔ PostBuild.o_fatal (PostBuild.post_build_fun ctx w) = None.
Proof.
  pose proof (summary_console ctx) as Hs.
  pose proof (generate_console ctx w) as Hg.
  unfold PostBuild.post_build_fun.
  destruct (Summary.print_test_summary ctx) as [n console]. cbn [snd] in Hs.
  destruct (0 <? n); destruct (env_with_coverage ctx);
    try destruct (Coverage.generate_coverage_report ctx w) as [ok p];
    cbn in Hg |- *; split; try discriminate; try reflexivity.
  - intros Hin. apply elem_of_app in Hin as [Hin|Hin]; contradiction.
  - intros Hin. contradiction.
  - intros _. apply elem_of_app. left. apply elem_of_app. right.
    apply list_elem_of_here.
  - intros _. apply elem_of_app. right. apply list_elem_of_here.
Qed.
